(** * The object manager of installed applications

    A shallow embedding of
    [src/application/browser/linux/installed_applications_root.cc]:
    the [InstalledApplicationsManager] that mirrors the application store as
    a collection of exported D-Bus objects, and the statements the
    specification makes about it.

    The manager is stateful C++: it owns heap objects through a
    [ScopedVector], hands raw pointers to them to bound callbacks, and talks
    to a bus and to the application service.  The embedding keeps this
    shape: a state with an object heap, the vector of pointers, the bus
    method tables and the store's map; a state monad whose outcomes are a
    normal return, a failed [CHECK] and undefined behaviour; and a trace
    that records, in program order, every call the code makes to its
    collaborators and every read of an object through a pointer. *)

From Stdlib Require Import Ascii.
From stdpp Require Import gmap strings list fin_maps.

(** * Data model *)

(** [dbus::ObjectPath] wraps a string. *)
Abbreviation ObjectPath := string.

(** A raw [InstalledApplicationObject*]: the address of a heap cell. *)
Abbreviation ptr := nat.

(** The store's [ApplicationData]: the identity and what the manifest gives.
    The manager only reads [ID] and passes the rest through. *)
Record ApplicationData := mkApplicationData {
  ID : string;
  Version : string;
  Manifest : list (string * string)
}.

(** The D-Bus type a{sa{sv}}: interface name to property name to value. *)
Abbreviation PropertySet := (list (string * list (string * string))).

(** The state of one [InstalledApplicationObject], as the manager reads it
    through [app_id()], [path()], [interfaces()] and
    [AppendAllPropertiesToWriter()]. *)
Record InstalledApplicationObject := mkObject {
  app_id_ : string;
  path_ : ObjectPath;
  interfaces_ : list string;
  properties_ : PropertySet
}.

(** Modelled from the spec: [installed_application_object.{h,cc}] are not
    among the sources.  The spec says of an exported object that its path is
    "derived deterministically from identity", that its interfaces are
    "fixed at construction" and that it has a "full property-set
    materialization"; the header also declares the error name used by the
    uninstall handler.  Everything below holds for any such choice. *)
Class InstalledApplicationObjectImpl := {
  kInstalledApplicationDBusInterface : string;
  kInstalledApplicationDBusError : string;
  GetInstalledPathForAppID : ObjectPath -> string -> ObjectPath;
  ExportedInterfaces : ApplicationData -> list string;
  ExportedProperties : ApplicationData -> PropertySet
}.

(** ** Messages *)

Inductive Arg :=
| ArgString (s : string)
| ArgObjectPath (p : ObjectPath)
| ArgArrayOfStrings (l : list string)
| ArgProperties (ps : PropertySet)
| ArgManagedObjects (entries : list (ObjectPath * PropertySet)).

Record MethodCall := mkMethodCall {
  serial : nat;
  arguments : list Arg
}.

Record Signal := mkSignal {
  signal_interface : string;
  signal_member : string;
  signal_body : list Arg
}.

(** [dbus::Response::FromMethodCall] and [dbus::ErrorResponse::FromMethodCall]:
    both keep the call they answer. *)
Inductive Response :=
| Reply (method_call : MethodCall) (body : list Arg)
| ErrorResponse (method_call : MethodCall) (error_name message : string).

(** ** The bus *)

(** A method-call callback as [base::Bind] builds it.  The uninstall
    callback carries [base::Unretained(object)], a raw pointer. *)
Inductive Handler :=
| BindOnGetManagedObjects
| BindOnInstall
| BindOnUninstall (object : ptr).

Abbreviation MethodTable := (list (string * string * Handler)).

(** ** The trace *)

Inductive Field := F_app_id | F_path | F_interfaces | F_properties.

Inductive ServiceCall :=
| CallInstall (file_path : string)
| CallUninstall (id : string).

Inductive Event :=
| EvNew (object : ptr)
| EvExportMethod (p : ObjectPath) (interface method : string)
| EvPushBack (object : ptr)
| EvRead (object : ptr) (f : Field)
| EvSendSignal (sig : Signal)
| EvUnregisterExportedObject (p : ObjectPath)
| EvErase (object : ptr)
| EvServiceCall (c : ServiceCall)
| EvServiceReturn (success : bool)
| EvRun (r : Response)
| EvLogWarning (msg : string).

(** ** The state *)

Record State := mkState {
  (** [ApplicationStore::ApplicationMap], a [std::map] from id to data *)
  apps : gmap string ApplicationData;
  (** live [InstalledApplicationObject]s, by address *)
  heap : gmap nat InstalledApplicationObject;
  (** the next address [new] hands out; addresses are not reused *)
  next_object : nat;
  (** [ScopedVector<InstalledApplicationObject> installed_apps_] *)
  installed_apps_ : list nat;
  (** the exported objects of [bus_], each with its method table *)
  bus_ : gmap string (list (string * string * Handler));
  trace : list Event
}.

Definition set_apps (f : gmap string ApplicationData -> gmap string ApplicationData)
    (s : State) : State :=
  mkState (f (apps s)) (heap s) (next_object s) (installed_apps_ s) (bus_ s)
          (trace s).

Definition set_heap (f : gmap nat InstalledApplicationObject ->
                         gmap nat InstalledApplicationObject)
    (s : State) : State :=
  mkState (apps s) (f (heap s)) (next_object s) (installed_apps_ s) (bus_ s)
          (trace s).

Definition set_next_object (n : nat) (s : State) : State :=
  mkState (apps s) (heap s) n (installed_apps_ s) (bus_ s) (trace s).

Definition set_installed_apps (f : list nat -> list nat) (s : State) : State :=
  mkState (apps s) (heap s) (next_object s) (f (installed_apps_ s)) (bus_ s)
          (trace s).

Definition set_bus (f : gmap string (list (string * string * Handler)) ->
                        gmap string (list (string * string * Handler)))
    (s : State) : State :=
  mkState (apps s) (heap s) (next_object s) (installed_apps_ s) (f (bus_ s))
          (trace s).

Definition log (evs : list Event) (s : State) : State :=
  mkState (apps s) (heap s) (next_object s) (installed_apps_ s) (bus_ s)
          (trace s ++ evs).

(** ** The monad *)

Inductive Outcome (A : Type) :=
| Done (a : A) (s : State)
| CheckFailed (s : State)
| Undefined (s : State).
Arguments Done {A} a s.
Arguments CheckFailed {A} s.
Arguments Undefined {A} s.

Definition M (A : Type) : Type := State -> Outcome A.

Definition ret {A} (a : A) : M A := fun s => Done a s.

Definition bind {A B} (m : M A) (k : A -> M B) : M B := fun s =>
  match m s with
  | Done a s' => k a s'
  | CheckFailed s' => CheckFailed s'
  | Undefined s' => Undefined s'
  end.

Declare Scope manager_scope.
Delimit Scope manager_scope with manager.
Bind Scope manager_scope with M.
Notation "x ← y ; z" := (bind y (fun x => z))
  (at level 20, y at level 100, z at level 200, only parsing) : manager_scope.
Notation "y ;; z" := (bind y (fun _ => z))
  (at level 100, z at level 200, only parsing, right associativity)
  : manager_scope.
Open Scope manager_scope.

Definition get : M State := fun s => Done s s.
Definition modify (f : State -> State) : M unit := fun s => Done tt (f s).
Definition emit (e : Event) : M unit := modify (log [e]).
Definition undefined {A} : M A := fun s => Undefined s.

(** [CHECK(cond)]: aborts the process when the condition is false. *)
Definition CHECK (cond : bool) : M unit :=
  fun s => if cond then Done tt s else CheckFailed s.

(** [LOG(WARNING) << msg] *)
Definition LOG_WARNING (msg : string) : M unit := emit (EvLogWarning msg).

(** * Collaborators *)

(** ** The bus and the exported objects

    [dbus::Bus] and [dbus::ExportedObject] belong to the D-Bus library the
    manager links against.  An exported object is an entry of the bus; a
    method is exported once per absolute name, a second export of the same
    name is refused and leaves the table as it was. *)

Definition GetExportedObject (p : ObjectPath) : M unit :=
  modify (set_bus (fun b => match b !! p with
                            | Some _ => b
                            | None => <[p := []]> b
                            end)).

Definition method_exported (interface method : string)
    (table : list (string * string * Handler)) : bool :=
  existsb (fun e => String.eqb e.1.1 interface && String.eqb e.1.2 method) table.

Definition add_method (interface method : string) (h : Handler)
    (table : list (string * string * Handler)) :
    list (string * string * Handler) :=
  if method_exported interface method table then table
  else table ++ [(interface, method, h)].

Definition ExportMethod (p : ObjectPath) (interface method : string)
    (h : Handler) : M unit :=
  modify (set_bus (fun b =>
            <[p := add_method interface method h (default [] (b !! p))]> b));;
  emit (EvExportMethod p interface method).

Definition SendSignal (sig : Signal) : M unit := emit (EvSendSignal sig).

Definition UnregisterExportedObject (p : ObjectPath) : M unit :=
  modify (set_bus (delete p));;
  emit (EvUnregisterExportedObject p).

(** [response_sender.Run(response)] *)
Definition Run (r : Response) : M unit := emit (EvRun r).

(** [reader.PopString(&s)]: succeeds when the next argument is a string. *)
Definition PopString (args : list Arg) : option string :=
  match args with
  | ArgString s :: _ => Some s
  | _ => None
  end.

(** [base::FilePath::IsAbsolute] on POSIX (the file lives under [linux/]):
    the path is not empty and starts with the separator. *)
Definition IsAbsolute (file_path : string) : bool :=
  match file_path with
  | String c _ => Ascii.eqb c "/"%char
  | EmptyString => false
  end.

(** ** Reading an object through a pointer

    Every accessor call on an [InstalledApplicationObject*] reads the cell
    the pointer names.  Reading a cell that was destroyed is undefined. *)

Definition read {A} (f : Field) (proj : InstalledApplicationObject -> A)
    (object : ptr) : M A :=
  fun s => match heap s !! object with
           | Some o => Done (proj o) (log [EvRead object f] s)
           | None => Undefined s
           end.

Definition app_id : ptr -> M string := read F_app_id app_id_.
Definition path : ptr -> M ObjectPath := read F_path path_.
Definition interfaces : ptr -> M (list string) := read F_interfaces interfaces_.
(** [object->AppendAllPropertiesToWriter(&writer)] *)
Definition AppendAllPropertiesToWriter : ptr -> M PropertySet :=
  read F_properties properties_.

(** ** The vector [installed_apps_]

    Iterators are positions; [end()] is the length. *)

Definition installed_apps_end : M nat :=
  s ← get; ret (length (installed_apps_ s)).

(** [*it] *)
Definition installed_apps_at (it : nat) : M ptr :=
  s ← get;
  match installed_apps_ s !! it with
  | Some object => ret object
  | None => undefined
  end.

Definition push_back (object : ptr) : M unit :=
  modify (set_installed_apps (fun l => l ++ [object]));;
  emit (EvPushBack object).

(** [ScopedVector::erase(it)]: removes the element and deletes the object
    it points to. *)
Definition erase (it : nat) : M unit :=
  object ← installed_apps_at it;
  modify (set_installed_apps (delete it));;
  modify (set_heap (delete object));;
  emit (EvErase object).

(** [std::find_if(first, last, pred)] over the elements [l] that start at
    position [first]. *)
Fixpoint find_if (first : nat) (l : list nat) (pred : ptr -> M bool) : M nat :=
  match l with
  | [] => ret first
  | object :: rest =>
      b ← pred object;
      if b then ret first else find_if (S first) rest pred
  end.

Definition installed_apps_find_if (pred : ptr -> M bool) : M nat :=
  s ← get; find_if 0 (installed_apps_ s) pred.

(** ** The application service, as the manager sees it *)

(** Modelled from the spec: [ApplicationService::GetApplicationByID] is
    not among the sources; it is the store's "lookup by identity", and
    gives the store's entry or a null reference. *)
Definition GetApplicationByID (id : string) : M (option ApplicationData) :=
  s ← get; ret (apps s !! id).

(** Modelled from the spec: [ApplicationService::GetInstalledApplications]
    is not among the sources; it is the store's "enumeration of all
    installed applications", the [ApplicationMap] the loop iterates. *)
Definition GetInstalledApplications : M (list (string * ApplicationData)) :=
  s ← get; ret (map_to_list (apps s)).

(** The two mutating operations of [ApplicationService].  The handlers are
    written against this interface; [Install] returns the success flag and
    what it wrote to its out-parameter. *)
Record ApplicationService := mkService {
  Install : string -> M (bool * string);
  Uninstall : string -> M bool
}.

Definition call_Install (service : ApplicationService) (file_path : string) :
    M (bool * string) :=
  emit (EvServiceCall (CallInstall file_path));;
  r ← Install service file_path;
  emit (EvServiceReturn r.1);;
  ret r.

Definition call_Uninstall (service : ApplicationService) (id : string) : M bool :=
  emit (EvServiceCall (CallUninstall id));;
  r ← Uninstall service id;
  emit (EvServiceReturn r);;
  ret r.

(** * The manager *)

Definition kInstalledManagerDBusInterface : string :=
  "org.crosswalkproject.Installed.Manager".
Definition kInstalledManagerDBusError : string :=
  "org.crosswalkproject.Installed.Manager.Error".
Definition kDBusObjectManagerInterface : string :=
  "org.freedesktop.DBus.ObjectManager".
Definition kInstalledManagerDBusPath : ObjectPath := "/installed".

Section Manager.
Context {impl : InstalledApplicationObjectImpl}.

(** Modelled from the spec: the constructor of [InstalledApplicationObject]
    is not among the sources.  It is given the bus, the manager's path and
    the application data; the object it builds has the application's
    identity, the path derived from it, and its interfaces and properties.
    A null application reference cannot be read. *)
Definition new_InstalledApplicationObject (base : ObjectPath)
    (app : option ApplicationData) : M ptr :=
  match app with
  | None => undefined
  | Some a =>
      s ← get;
      let object := next_object s in
      modify (set_heap (insert object
        (mkObject (ID a) (GetInstalledPathForAppID base (ID a))
                  (ExportedInterfaces a) (ExportedProperties a))));;
      modify (set_next_object (S object));;
      emit (EvNew object);;
      ret object
  end.

(** Modelled from the spec: [ExportUninstallMethod] is not among the
    sources.  It exports the object's one command, Uninstall, at the
    object's path with the callback it is given. *)
Definition ExportUninstallMethod (object : ptr) (h : Handler) : M unit :=
  p ← path object;
  ExportMethod p kInstalledApplicationDBusInterface "Uninstall" h.

Definition CreateObject (app : option ApplicationData) : M ptr :=
  object ← new_InstalledApplicationObject kInstalledManagerDBusPath app;
  ExportUninstallMethod object (BindOnUninstall object);;
  ret object.

Definition OnApplicationInstalled (id : string) : M unit :=
  app ← GetApplicationByID id;
  object ← CreateObject app;
  push_back object;;
  p ← path object;
  props ← AppendAllPropertiesToWriter object;
  SendSignal (mkSignal kDBusObjectManagerInterface "InterfacesAdded"
                       [ArgObjectPath p; ArgProperties props]).

Definition MatchAppID (id : string) (object : ptr) : M bool :=
  object_id ← app_id object;
  ret (String.eqb id object_id).

Definition OnApplicationUninstalled (id : string) : M unit :=
  it ← installed_apps_find_if (MatchAppID id);
  e ← installed_apps_end;
  if it =? e then
    LOG_WARNING "Notified about uninstallation of unknown app_id."
  else
    object ← installed_apps_at it;
    p ← path object;
    object ← installed_apps_at it;
    ifs ← interfaces object;
    SendSignal (mkSignal kDBusObjectManagerInterface "InterfacesRemoved"
                         [ArgObjectPath p; ArgArrayOfStrings ifs]);;
    object ← installed_apps_at it;
    p ← path object;
    UnregisterExportedObject p;;
    erase it.

Fixpoint CreateInitialObjects_loop (l : list (string * ApplicationData)) :
    M unit :=
  match l with
  | [] => ret tt
  | entry :: rest =>
      object ← CreateObject (Some entry.2);
      push_back object;;
      CreateInitialObjects_loop rest
  end.

Definition CreateInitialObjects : M unit :=
  l ← GetInstalledApplications;
  CreateInitialObjects_loop l.

Fixpoint OnGetManagedObjects_loop (l : list nat) :
    M (list (ObjectPath * PropertySet)) :=
  match l with
  | [] => ret []
  | installed_app :: rest =>
      p ← path installed_app;
      props ← AppendAllPropertiesToWriter installed_app;
      entries ← OnGetManagedObjects_loop rest;
      ret ((p, props) :: entries)
  end.

Definition OnGetManagedObjects (method_call : MethodCall) : M unit :=
  s ← get;
  entries ← OnGetManagedObjects_loop (installed_apps_ s);
  Run (Reply method_call [ArgManagedObjects entries]).

Definition CreateError (method_call : MethodCall) (message : string) : Response :=
  ErrorResponse method_call kInstalledManagerDBusError message.

Definition OnInstall (service : ApplicationService) (method_call : MethodCall) :
    M unit :=
  match PopString (arguments method_call) with
  | None => Run (CreateError method_call "Error parsing message.")
  | Some file_path_str =>
      if negb (IsAbsolute file_path_str) then
        Run (CreateError method_call "Path to install must be absolute.")
      else
        r ← call_Install service file_path_str;
        if negb r.1 then
          Run (CreateError method_call
                 ("Error installing application with path: " +:+ file_path_str))
        else
          it ← installed_apps_find_if (MatchAppID r.2);
          e ← installed_apps_end;
          CHECK (negb (it =? e));;
          object ← installed_apps_at it;
          p ← path object;
          Run (Reply method_call [ArgObjectPath p])
  end.

Definition OnUninstall (service : ApplicationService)
    (installed_app_object : ptr) (method_call : MethodCall) : M unit :=
  id ← app_id installed_app_object;
  ok ← call_Uninstall service id;
  if negb ok then
    id' ← app_id installed_app_object;
    Run (ErrorResponse method_call kInstalledApplicationDBusError
           ("Error trying to uninstall application with id " +:+ id'))
  else
    Run (Reply method_call []).

(** The bus runs the export callbacks later, with the result of the
    export; they only log. *)
Definition OnExported (interface_name method_name : string) (success : bool) :
    M unit :=
  if negb success then
    LOG_WARNING ("Error exporting method '" +:+ interface_name +:+ "."
                 +:+ method_name +:+ "' in '" +:+ kInstalledManagerDBusPath
                 +:+ "'.")
  else ret tt.

(** The constructor: subscribes to the service (the service below notifies
    this manager), exports the two manager methods at the manager's path
    and creates the initial objects. *)
Definition InstalledApplicationsManager : M unit :=
  GetExportedObject kInstalledManagerDBusPath;;
  ExportMethod kInstalledManagerDBusPath kDBusObjectManagerInterface
               "GetManagedObjects" BindOnGetManagedObjects;;
  ExportMethod kInstalledManagerDBusPath kInstalledManagerDBusInterface
               "Install" BindOnInstall;;
  CreateInitialObjects.

(** * The application service

    [package] is what the installer makes of the file at the given path
    (nothing when it rejects the package); [accept] is whether the store
    goes through with a removal.  Both are decided outside the manager. *)

(** Modelled from the spec: [ApplicationService::Install]
    ([application_service.cc]) is not among the sources.  The spec makes the
    store the "source of truth for which applications are installed", with
    identities that are unique; an application is "created on successful
    install"; install returns "either (success, new identity) or failure",
    and on success the observer callback "has, by contract, already run
    synchronously before install returns".  A failed install changes
    nothing and notifies nobody. *)
Definition service_Install (package : option ApplicationData)
    (file_path : string) : M (bool * string) :=
  match package with
  | None => ret (false, EmptyString)
  | Some app =>
      s ← get;
      match apps s !! ID app with
      | Some _ => ret (false, EmptyString)
      | None =>
          modify (set_apps (insert (ID app) app));;
          OnApplicationInstalled (ID app);;
          ret (true, ID app)
      end
  end.

(** Modelled from the spec: [ApplicationService::Uninstall] is not among
    the sources.  An application is "destroyed on successful uninstall" and
    the observer is notified synchronously; on failure "the object remains
    registered and unaffected". *)
Definition service_Uninstall (accept : bool) (id : string) : M bool :=
  s ← get;
  match apps s !! id with
  | None => ret false
  | Some _ =>
      if accept then
        modify (set_apps (delete id));;
        OnApplicationUninstalled id;;
        ret true
      else ret false
  end.

Definition application_service_ (package : option ApplicationData)
    (accept : bool) : ApplicationService :=
  mkService (service_Install package) (service_Uninstall accept).

(** * Operations, one turn at a time

    The bus delivers one method call at a time to the callback exported
    under its path and name; any other client of the service may install or
    uninstall as well. *)

Inductive Operation :=
| DBusCall (p : ObjectPath) (interface method : string)
           (method_call : MethodCall)
| ServiceInstall (file_path : string)
| ServiceUninstall (id : string).

Record Turn := mkTurn {
  package : option ApplicationData;
  accept : bool;
  operation : Operation
}.

Definition lookup_method (p : ObjectPath) (interface method : string)
    (s : State) : option Handler :=
  match bus_ s !! p with
  | None => None
  | Some table =>
      match List.find (fun e => String.eqb e.1.1 interface
                                && String.eqb e.1.2 method) table with
      | Some e => Some e.2
      | None => None
      end
  end.

Definition deliver (service : ApplicationService) (p : ObjectPath)
    (interface method : string) (method_call : MethodCall) : M unit :=
  s ← get;
  match lookup_method p interface method s with
  | Some BindOnGetManagedObjects => OnGetManagedObjects method_call
  | Some BindOnInstall => OnInstall service method_call
  | Some (BindOnUninstall object) => OnUninstall service object method_call
  | None => ret tt
  end.

Definition turn (t : Turn) : M unit :=
  let service := application_service_ (package t) (accept t) in
  match operation t with
  | DBusCall p interface method method_call =>
      deliver service p interface method method_call
  | ServiceInstall file_path => call_Install service file_path;; ret tt
  | ServiceUninstall id => call_Uninstall service id;; ret tt
  end.

Fixpoint run (turns : list Turn) : M unit :=
  match turns with
  | [] => ret tt
  | t :: rest => turn t;; run rest
  end.

(** The process before the manager is constructed: a store and nothing
    else. *)
Definition startup (store : gmap string ApplicationData) : State :=
  mkState store ∅ 0 [] ∅ [].

(** ** What an observer of the manager sees *)

(** The identities of the objects a list of pointers names, in order; a
    dangling pointer names none. *)
Definition ids_of (s : State) (l : list nat) : list string :=
  omap (fun object => app_id_ <$> heap s !! object) l.

(** The identities held by the collection. *)
Definition installed_ids (s : State) : list string :=
  ids_of s (installed_apps_ s).

(** Every pointer of the list names a live object.  A [ScopedVector] owns
    what it points to, so this holds of [installed_apps_] as long as nobody
    else deletes its objects. *)
Definition live (s : State) (l : list nat) : Prop :=
  Forall (fun object => is_Some (heap s !! object)) l.

(** [new] returns an address no live object has: the live objects sit
    below [next_object]. *)
Definition fresh (s : State) : Prop :=
  map_Forall (fun object _ => object < next_object s) (heap s).

(** One read of field [f] per pointer, in order. *)
Definition reads (f : Field) (l : list nat) : list Event :=
  map (fun object => EvRead object f) l.

(** What an enumeration of the pointers [l] answers, and what it reads. *)
Definition managed_objects (s : State) (l : list nat) :
    list (ObjectPath * PropertySet) :=
  omap (fun object =>
          (fun o => (path_ o, properties_ o)) <$> heap s !! object) l.

Definition enumeration_reads (l : list nat) : list Event :=
  flat_map (fun object => [EvRead object F_path; EvRead object F_properties]) l.

(** The events that follow the return of the service call. *)
Fixpoint after_return (evs : list Event) : list Event :=
  match evs with
  | [] => []
  | EvServiceReturn _ :: rest => rest
  | _ :: rest => after_return rest
  end.

Definition is_read_of (object : ptr) (e : Event) : bool :=
  match e with
  | EvRead object' _ => Nat.eqb object object'
  | _ => false
  end.

(** No event after the return of the service call reads [object]. *)
Definition no_read_after_return (object : ptr) (evs : list Event) : bool :=
  forallb (fun e => negb (is_read_of object e)) (after_return evs).

(** The mirror: the collection holds the store's identities, each once. *)
Definition mirror (s : State) : Prop :=
  live s (installed_apps_ s) /\
  NoDup (installed_ids s) /\
  forall id, id ∈ installed_ids s <-> is_Some (apps s !! id).

(** The store files every application under its own identity. *)
Definition keyed_by_ID (store : gmap string ApplicationData) : Prop :=
  forall id app, store !! id = Some app -> ID app = id.

(** ** What the observer callbacks leave behind *)

Definition new_object (app : ApplicationData) : InstalledApplicationObject :=
  mkObject (ID app) (GetInstalledPathForAppID kInstalledManagerDBusPath (ID app))
           (ExportedInterfaces app) (ExportedProperties app).

(** The state [CreateObject] leaves: the object on the heap, its Uninstall
    method exported at its path. *)
Definition created (app : ApplicationData) (s : State) : State :=
  set_bus (fun b =>
      <[path_ (new_object app) :=
          add_method kInstalledApplicationDBusInterface "Uninstall"
            (BindOnUninstall (next_object s))
            (default [] (b !! path_ (new_object app)))]> b)
    (set_next_object (S (next_object s))
       (set_heap (insert (next_object s) (new_object app)) s)).

Definition created_events (app : ApplicationData) (s : State) : list Event :=
  [EvNew (next_object s);
   EvRead (next_object s) F_path;
   EvExportMethod (path_ (new_object app)) kInstalledApplicationDBusInterface
                  "Uninstall"].

Definition interfaces_added (o : InstalledApplicationObject) : Signal :=
  mkSignal kDBusObjectManagerInterface "InterfacesAdded"
           [ArgObjectPath (path_ o); ArgProperties (properties_ o)].

Definition interfaces_removed (o : InstalledApplicationObject) : Signal :=
  mkSignal kDBusObjectManagerInterface "InterfacesRemoved"
           [ArgObjectPath (path_ o); ArgArrayOfStrings (interfaces_ o)].

Definition installed (app : ApplicationData) (s : State) : State :=
  log (created_events app s ++
       [EvPushBack (next_object s);
        EvRead (next_object s) F_path;
        EvRead (next_object s) F_properties;
        EvSendSignal (interfaces_added (new_object app))])
    (set_installed_apps (fun l => l ++ [next_object s]) (created app s)).

Definition uninstalled (l1 : list nat) (p : ptr)
    (o : InstalledApplicationObject) (l2 : list nat) (s : State) : State :=
  log (reads F_app_id (l1 ++ [p]) ++
       [EvRead p F_path;
        EvRead p F_interfaces;
        EvSendSignal (interfaces_removed o);
        EvRead p F_path;
        EvUnregisterExportedObject (path_ o);
        EvErase p])
    (set_heap (delete p)
       (set_installed_apps (fun _ => l1 ++ l2)
          (set_bus (delete (path_ o)) s))).

(** ** What every turn preserves *)

(** Every object sits at the path derived from its identity. *)
Definition objects_at_their_paths (s : State) : Prop :=
  forall object o, heap s !! object = Some o ->
    path_ o = GetInstalledPathForAppID kInstalledManagerDBusPath (app_id_ o).

(** Every uninstall callback the bus holds is bound to a live object, and
    is exported at that object's path. *)
Definition bound_objects_live (s : State) : Prop :=
  forall p table interface method object,
    bus_ s !! p = Some table ->
    (interface, method, BindOnUninstall object) ∈ table ->
    exists o, heap s !! object = Some o /\ path_ o = p.

(** What every turn preserves, apart from the mirror itself. *)
Definition sound (s : State) : Prop :=
  fresh s /\ objects_at_their_paths s /\ bound_objects_live s /\
  live s (installed_apps_ s).

Definition consistent (s : State) : Prop :=
  keyed_by_ID (apps s) /\ sound s /\ mirror s.

(** The state [CreateObject] and [push_back] leave, up to the trace. *)
Definition add_record (app : ApplicationData) (s : State) : State :=
  set_installed_apps (fun l => l ++ [next_object s]) (created app s).

(** ** Counting what the manager sends *)

Definition is_response (e : Event) : bool :=
  match e with
  | EvRun _ => true
  | _ => false
  end.


(** The number of responses handed to a response sender. *)
Definition responses (evs : list Event) : nat :=
  length (List.filter is_response evs).

(** ** Notifications, as any observed service may deliver them *)

Inductive Notification :=
| Installed (id : string)
| Uninstalled (id : string).

Definition notify (n : Notification) : M unit :=
  match n with
  | Installed id => OnApplicationInstalled id
  | Uninstalled id => OnApplicationUninstalled id
  end.

Fixpoint notify_all (ns : list Notification) : M unit :=
  match ns with
  | [] => ret tt
  | n :: rest => notify n;; notify_all rest
  end.

(** An install notification names an application the store can look up. *)
Definition known (s : State) (n : Notification) : Prop :=
  match n with
  | Installed id => is_Some (apps s !! id)
  | Uninstalled _ => True
  end.

(** The vector owns its objects: every element is live and none occurs
    twice; every bound callback names a live object. *)
Definition owned (s : State) : Prop :=
  sound s /\ NoDup (installed_apps_ s).


(** A service reduced to its contract with its observer: it notifies the
    manager, synchronously, and reports success. *)
Definition notifying_service (id : string) : ApplicationService :=
  mkService (fun _ => OnApplicationInstalled id;; ret (true, id))
            (fun id' => OnApplicationUninstalled id';; ret true).

End Manager.

(** * A concrete object implementation, for the scenarios of the spec

    "app.a" lives at "/installed/app_a". *)

Definition path_char (c : ascii) : ascii :=
  if Ascii.eqb c "."%char then "_"%char else c.

Fixpoint path_segment (id : string) : string :=
  match id with
  | EmptyString => EmptyString
  | String c rest => String (path_char c) (path_segment rest)
  end.

Definition scenario_impl : InstalledApplicationObjectImpl := {|
  kInstalledApplicationDBusInterface :=
    "org.crosswalkproject.Installed.Application1";
  kInstalledApplicationDBusError :=
    "org.crosswalkproject.Installed.Application.Error";
  GetInstalledPathForAppID base id := base +:+ "/" +:+ path_segment id;
  ExportedInterfaces _ := ["org.crosswalkproject.Installed.Application1"];
  ExportedProperties a :=
    [("org.crosswalkproject.Installed.Application1",
      ("AppID", ID a) :: ("Version", Version a) :: Manifest a)]
|}.

Definition app_a : ApplicationData := mkApplicationData "app.a" "1.0" [].
Definition app_b : ApplicationData := mkApplicationData "app.b" "2.1" [].

(** The manager, constructed over a store that holds "app.a". *)
Definition outcome_state {A} (o : Outcome A) : State :=
  match o with
  | Done _ s => s
  | CheckFailed s => s
  | Undefined s => s
  end.

Definition scenario_store : gmap string ApplicationData :=
  {[ "app.a" := app_a ]}.

Definition scenario : State :=
  Eval vm_compute in
    outcome_state
      (InstalledApplicationsManager (impl := scenario_impl)
         (startup scenario_store)).

(** The same process in the middle of an install of "app.b": the store has
    added it and has not yet notified the manager. *)
Definition scenario_unnotified : State :=
  set_apps (insert "app.b" app_b) scenario.

Definition kScenarioInterface : string :=
  "org.crosswalkproject.Installed.Application1".

(** The five scenarios of the spec, as turns. *)
Definition scenario_turns : list Turn :=
  [mkTurn (Some app_b) true
     (DBusCall "/installed" kInstalledManagerDBusInterface "Install"
        (mkMethodCall 1 [ArgString "/abs/path/app-b.pkg"]));
   mkTurn None true
     (DBusCall "/installed" kInstalledManagerDBusInterface "Install"
        (mkMethodCall 2 [ArgString "relative/path.pkg"]));
   mkTurn None false
     (DBusCall "/installed/app_a" kScenarioInterface "Uninstall"
        (mkMethodCall 3 []));
   mkTurn None true
     (DBusCall "/installed/app_b" kScenarioInterface "Uninstall"
        (mkMethodCall 4 []));
   mkTurn None true
     (DBusCall "/installed" kDBusObjectManagerInterface "GetManagedObjects"
        (mkMethodCall 5 []))].

(** What the service of the spec leaves when it accepts the uninstall of
    "app.a" on behalf of its object, and the install of "app.b". *)
Definition scenario_uninstalled : State :=
  Eval vm_compute in
    outcome_state
      (service_Uninstall true "app.a"
         (log [EvRead 0 F_app_id; EvServiceCall (CallUninstall "app.a")]
            scenario)).

Definition scenario_installed : State :=
  Eval vm_compute in
    outcome_state
      (service_Install (impl := scenario_impl) (Some app_b)
         "/abs/path/app-b.pkg"
         (log [EvServiceCall (CallInstall "/abs/path/app-b.pkg")] scenario)).

(** A service that breaks its contract: it reports a successful install
    and has notified nobody. *)
Definition forgetful_service : ApplicationService :=
  mkService (fun _ => ret (true, "app.ghost")) (fun _ => ret false).

(** * Properties *)

(** Symbolic execution of the monadic code: unfold the plumbing, reduce the
    projections of the states built on the way. *)
Ltac msimpl :=
  cbv beta iota zeta delta
    [bind ret get modify emit undefined CHECK LOG_WARNING GetExportedObject
     ExportMethod SendSignal UnregisterExportedObject Run read app_id path
     interfaces AppendAllPropertiesToWriter installed_apps_end
     installed_apps_at push_back erase installed_apps_find_if
     GetApplicationByID GetInstalledApplications call_Install call_Uninstall
     new_InstalledApplicationObject ExportUninstallMethod
     CreateError
     log set_heap set_bus set_apps set_next_object set_installed_apps
     apps heap next_object installed_apps_ bus_ trace fst snd negb];
  cbn [app_id_ path_ interfaces_ properties_].

Tactic Notation "msimpl" "in" hyp(H) :=
  cbv beta iota zeta delta
    [log set_heap set_bus set_apps set_next_object set_installed_apps
     apps heap next_object installed_apps_ bus_ trace
     live fresh ids_of installed_ids] in H.

(** States are taken apart into their fields before the code is run on
    them, so that every projection computes. *)
Ltac open_state s :=
  let ap := fresh "ap" in let hp := fresh "hp" in let nx := fresh "nx" in
  let ia := fresh "ia" in let bs := fresh "bs" in let tr := fresh "tr" in
  destruct s as [ap hp nx ia bs tr];
  repeat match goal with
         | H : context [mkState _ _ _ _ _ _] |- _ => progress msimpl in H
         end.

Ltac mexec_with tac := msimpl; repeat (progress tac; msimpl).
Ltac mexec := mexec_with ltac:(rewrite ?lookup_insert_eq).

(** Two states are equal when their fields are; traces are compared up to
    re-association. *)
Ltac state_eq :=
  msimpl; f_equal; unfold reads;
  repeat (progress (rewrite ?map_app, <- ?app_assoc, ?app_nil_r; cbn [app map]));
  try reflexivity.

(** Projections of the states the callbacks leave, without opening the
    state they started from. *)
Ltac fields :=
  cbn [uninstalled installed created log set_heap set_bus set_apps
       set_next_object set_installed_apps
       apps heap next_object installed_apps_ bus_ trace].

Section Properties.
Context {impl : InstalledApplicationObjectImpl}.

Lemma find_if_absent id l : forall first s,
  live s l -> id ∉ ids_of s l ->
  find_if first l (MatchAppID id) s
  = Done (first + length l) (log (reads F_app_id l) s).
Proof.
  induction l as [|p l IH]; intros first s Hl Hid.
  - open_state s. cbn [find_if]. msimpl. f_equal; first [cbn; lia | state_eq].
  - apply Forall_cons in Hl as [[o Ho] Hl].
    unfold ids_of in Hid. cbn [omap list_omap] in Hid. rewrite Ho in Hid.
    cbn in Hid. apply not_elem_of_cons in Hid as [Hne Hid].
    cbn [find_if]. unfold MatchAppID at 1.
    specialize (IH (S first) (log [EvRead p F_app_id] s) Hl Hid).
    open_state s. msimpl. rewrite Ho.
    destruct (String.eqb_spec id (app_id_ o)) as [->|_]; [done|].
    msimpl in IH. rewrite IH.
    f_equal; first [cbn; lia | state_eq].
Qed.

Lemma find_if_present id l1 p o l2 : forall first s,
  live s l1 -> id ∉ ids_of s l1 -> heap s !! p = Some o -> app_id_ o = id ->
  find_if first (l1 ++ p :: l2) (MatchAppID id) s
  = Done (first + length l1) (log (reads F_app_id (l1 ++ [p])) s).
Proof.
  induction l1 as [|q l1 IH]; intros first s Hl Hid Hp Ho.
  - cbn [app find_if]. unfold MatchAppID. open_state s. msimpl. rewrite Hp.
    rewrite Ho, String.eqb_refl. f_equal; first [cbn; lia | state_eq].
  - apply Forall_cons in Hl as [[oq Hq] Hl].
    unfold ids_of in Hid. cbn [omap list_omap] in Hid. rewrite Hq in Hid.
    cbn in Hid. apply not_elem_of_cons in Hid as [Hne Hid].
    cbn [app find_if]. unfold MatchAppID at 1.
    specialize (IH (S first) (log [EvRead q F_app_id] s) Hl Hid Hp Ho).
    open_state s. msimpl. rewrite Hq.
    destruct (String.eqb_spec id (app_id_ oq)) as [->|_]; [done|].
    msimpl in IH. rewrite IH.
    f_equal; first [cbn; lia | state_eq].
Qed.

(** A present identity has a first record. *)
Lemma first_record s id l :
  live s l -> id ∈ ids_of s l ->
  exists l1 p o l2, l = l1 ++ p :: l2 /\ live s l1 /\ (id ∉ ids_of s l1) /\
                    heap s !! p = Some o /\ app_id_ o = id.
Proof.
  induction l as [|q l IH]; intros Hl Hid.
  - by apply elem_of_nil in Hid.
  - apply Forall_cons in Hl as [[oq Hq] Hl].
    destruct (decide (app_id_ oq = id)) as [Heq|Hne].
    + exists [], q, oq, l. repeat split; try done.
      * constructor.
      * cbn. apply not_elem_of_nil.
    + unfold ids_of in Hid. cbn [omap list_omap] in Hid. rewrite Hq in Hid.
      cbn in Hid. apply elem_of_cons in Hid as [Heq|Hid]; [congruence|].
      destruct (IH Hl Hid) as (l1 & p & o & l2 & -> & Hl1 & Hn1 & Hp & Ho).
      exists (q :: l1), p, o, l2. repeat split; try done.
      * constructor; [by eexists | done].
      * unfold ids_of. cbn [omap list_omap]. rewrite Hq. cbn.
        apply not_elem_of_cons. split; [congruence | done].
Qed.

(** ** The observer callbacks, run *)

Lemma CreateObject_run app s :
  CreateObject (Some app) s
  = Done (next_object s) (log (created_events app s) (created app s)).
Proof.
  unfold CreateObject, created, created_events, new_object. open_state s.
  mexec. f_equal. state_eq.
Qed.

Lemma OnApplicationInstalled_run id app s :
  apps s !! id = Some app ->
  OnApplicationInstalled id s = Done tt (installed app s).
Proof.
  intros Happ. unfold OnApplicationInstalled.
  unfold bind at 1, GetApplicationByID, bind at 1, get, ret.
  rewrite Happ. unfold bind at 1. rewrite CreateObject_run.
  unfold installed, created, created_events, new_object. open_state s.
  mexec. f_equal. state_eq.
Qed.

Lemma OnApplicationUninstalled_absent id s :
  live s (installed_apps_ s) -> id ∉ installed_ids s ->
  OnApplicationUninstalled id s
  = Done tt (log (reads F_app_id (installed_apps_ s) ++
                  [EvLogWarning
                     "Notified about uninstallation of unknown app_id."]) s).
Proof.
  intros Hl Hid. unfold OnApplicationUninstalled.
  unfold bind at 1, installed_apps_find_if, bind at 1, get.
  rewrite (find_if_absent id _ 0 s Hl Hid). cbn [Nat.add].
  open_state s. msimpl. rewrite Nat.eqb_refl. f_equal. state_eq.
Qed.

Lemma OnApplicationUninstalled_present id l1 p o l2 s :
  installed_apps_ s = l1 ++ p :: l2 ->
  live s l1 -> id ∉ ids_of s l1 -> heap s !! p = Some o -> app_id_ o = id ->
  OnApplicationUninstalled id s = Done tt (uninstalled l1 p o l2 s).
Proof.
  intros Hs Hl Hid Hp Ho. unfold OnApplicationUninstalled.
  unfold bind at 1, installed_apps_find_if, bind at 1, get.
  rewrite Hs, (find_if_present id l1 p o l2 0 s Hl Hid Hp Ho).
  cbn [Nat.add]. unfold uninstalled.
  assert ((length l1 =? length (l1 ++ p :: l2)) = false) as Hend.
  { apply Nat.eqb_neq. rewrite length_app. cbn. lia. }
  assert ((l1 ++ p :: l2) !! length l1 = Some p) as Hat.
  { by rewrite list_lookup_middle. }
  assert (delete (length l1) (l1 ++ p :: l2) = l1 ++ l2) as Hdel.
  { by rewrite delete_middle. }
  open_state s. subst. mexec_with ltac:(rewrite ?Hend, ?Hat, ?Hp, ?Hdel).
  f_equal. state_eq.
Qed.

(** ** The service of the spec, run *)

Lemma service_Install_rejected file_path s :
  service_Install None file_path s = Done (false, EmptyString) s.
Proof. reflexivity. Qed.

Lemma service_Install_known app file_path s :
  is_Some (apps s !! ID app) ->
  service_Install (Some app) file_path s = Done (false, EmptyString) s.
Proof.
  intros [a Ha]. unfold service_Install, bind at 1, get. by rewrite Ha.
Qed.

Lemma service_Install_new app file_path s :
  apps s !! ID app = None ->
  service_Install (Some app) file_path s
  = Done (true, ID app) (installed app (set_apps (insert (ID app) app) s)).
Proof.
  intros Ha. unfold service_Install, bind at 1, get. rewrite Ha.
  unfold bind at 1, modify, bind at 1.
  rewrite (OnApplicationInstalled_run (ID app) app).
  - reflexivity.
  - open_state s. msimpl. apply lookup_insert_eq.
Qed.

Lemma service_Uninstall_unknown accept id s :
  apps s !! id = None -> service_Uninstall accept id s = Done false s.
Proof. intros Ha. unfold service_Uninstall, bind at 1, get. by rewrite Ha. Qed.

Lemma service_Uninstall_refused id s :
  service_Uninstall false id s = Done false s.
Proof.
  unfold service_Uninstall, bind at 1, get. by destruct (apps s !! id).
Qed.

Lemma service_Uninstall_accepted id s :
  is_Some (apps s !! id) ->
  service_Uninstall true id s
  = match OnApplicationUninstalled id (set_apps (delete id) s) with
    | Done _ s' => Done true s'
    | CheckFailed s' => CheckFailed s'
    | Undefined s' => Undefined s'
    end.
Proof.
  intros [a Ha]. unfold service_Uninstall, bind at 1, get. rewrite Ha.
  unfold bind, modify, ret.
  by destruct (OnApplicationUninstalled id (set_apps (delete id) s)).
Qed.

(** When the service reports a failure it has done nothing. *)
Lemma service_Install_failed package file_path s id s' :
  service_Install package file_path s = Done (false, id) s' -> s' = s.
Proof.
  destruct package as [app|]; [| by intros [= _ <-]].
  destruct (apps s !! ID app) as [a|] eqn:Ha.
  - rewrite service_Install_known by eauto. by intros [= _ <-].
  - by rewrite service_Install_new.
Qed.

Lemma service_Uninstall_failed accept id s s' :
  service_Uninstall accept id s = Done false s' -> s' = s.
Proof.
  destruct accept; [| rewrite service_Uninstall_refused; by intros [= <-]].
  destruct (apps s !! id) as [a|] eqn:Ha.
  - rewrite service_Uninstall_accepted by eauto.
    by destruct (OnApplicationUninstalled id (set_apps (delete id) s)).
  - rewrite service_Uninstall_unknown by done. by intros [= <-].
Qed.

(** ** Enumeration *)

Lemma OnGetManagedObjects_loop_run l : forall s,
  live s l ->
  OnGetManagedObjects_loop l s
  = Done (managed_objects s l) (log (enumeration_reads l) s).
Proof.
  induction l as [|p l IH]; intros s Hl.
  - open_state s. cbn. f_equal. state_eq.
  - apply Forall_cons in Hl as [[o Ho] Hl].
    specialize (IH (log [EvRead p F_path; EvRead p F_properties] s) Hl).
    cbn [OnGetManagedObjects_loop].
    unfold managed_objects in *. cbn [omap list_omap]. rewrite Ho.
    open_state s. mexec_with ltac:(rewrite ?Ho).
    msimpl in IH. rewrite <- app_assoc. cbn [app]. rewrite IH.
    cbn [fmap option_fmap option_map]. f_equal. state_eq.
Qed.

Lemma OnGetManagedObjects_run method_call s :
  live s (installed_apps_ s) ->
  OnGetManagedObjects method_call s
  = Done tt (log (enumeration_reads (installed_apps_ s) ++
                  [EvRun (Reply method_call
                     [ArgManagedObjects
                        (managed_objects s (installed_apps_ s))])]) s).
Proof.
  intros Hl. unfold OnGetManagedObjects, bind at 1, get, bind at 1.
  rewrite OnGetManagedObjects_loop_run by done.
  open_state s. msimpl. f_equal. state_eq.
Qed.

(** ** The handlers, run against any service *)

Lemma OnInstall_relative service method_call file_path s :
  PopString (arguments method_call) = Some file_path ->
  IsAbsolute file_path = false ->
  OnInstall service method_call s
  = Done tt (log [EvRun (ErrorResponse method_call kInstalledManagerDBusError
                           "Path to install must be absolute.")] s).
Proof. intros Hpop Habs. unfold OnInstall. by rewrite Hpop, Habs. Qed.

Lemma OnInstall_failed service method_call file_path s id s1 :
  PopString (arguments method_call) = Some file_path ->
  IsAbsolute file_path = true ->
  Install service file_path (log [EvServiceCall (CallInstall file_path)] s)
  = Done (false, id) s1 ->
  OnInstall service method_call s
  = Done tt (log [EvServiceReturn false;
                  EvRun (ErrorResponse method_call kInstalledManagerDBusError
                           ("Error installing application with path: "
                            +:+ file_path))] s1).
Proof.
  intros Hpop Habs Hsvc. unfold OnInstall. rewrite Hpop, Habs.
  open_state s. open_state s1. msimpl. rewrite Hsvc. msimpl.
  f_equal. state_eq.
Qed.

Lemma OnInstall_found service method_call file_path s id s1 l1 p o l2 :
  PopString (arguments method_call) = Some file_path ->
  IsAbsolute file_path = true ->
  Install service file_path (log [EvServiceCall (CallInstall file_path)] s)
  = Done (true, id) s1 ->
  installed_apps_ s1 = l1 ++ p :: l2 ->
  live s1 l1 -> id ∉ ids_of s1 l1 -> heap s1 !! p = Some o -> app_id_ o = id ->
  OnInstall service method_call s
  = Done tt (log (EvServiceReturn true :: reads F_app_id (l1 ++ [p]) ++
                  [EvRead p F_path;
                   EvRun (Reply method_call [ArgObjectPath (path_ o)])]) s1).
Proof.
  intros Hpop Habs Hsvc Hs1 Hl Hid Hp Ho. unfold OnInstall.
  rewrite Hpop, Habs.
  pose proof (find_if_present id l1 p o l2 0
                (log [EvServiceReturn true] s1) Hl Hid Hp Ho) as Hfind.
  assert ((length l1 =? length (l1 ++ p :: l2)) = false) as Hend.
  { apply Nat.eqb_neq. rewrite length_app. cbn. lia. }
  assert ((l1 ++ p :: l2) !! length l1 = Some p) as Hat.
  { by rewrite list_lookup_middle. }
  open_state s. open_state s1. subst. msimpl. rewrite Hsvc. msimpl.
  msimpl in Hfind. rewrite Hfind. cbn [Nat.add].
  mexec_with ltac:(rewrite ?Hend, ?Hat, ?Hp). f_equal. state_eq.
Qed.

Lemma OnInstall_lost service method_call file_path s id s1 :
  PopString (arguments method_call) = Some file_path ->
  IsAbsolute file_path = true ->
  Install service file_path (log [EvServiceCall (CallInstall file_path)] s)
  = Done (true, id) s1 ->
  live s1 (installed_apps_ s1) -> id ∉ installed_ids s1 ->
  OnInstall service method_call s
  = CheckFailed (log (EvServiceReturn true
                      :: reads F_app_id (installed_apps_ s1)) s1).
Proof.
  intros Hpop Habs Hsvc Hl Hid. unfold OnInstall. rewrite Hpop, Habs.
  pose proof (find_if_absent id (installed_apps_ s1) 0
                (log [EvServiceReturn true] s1) Hl Hid) as Hfind.
  open_state s. open_state s1. msimpl. rewrite Hsvc. msimpl.
  msimpl in Hfind. rewrite Hfind. cbn [Nat.add]. msimpl.
  rewrite Nat.eqb_refl. msimpl. f_equal. state_eq.
Qed.

Lemma OnUninstall_succeeded service object o method_call s s1 :
  heap s !! object = Some o ->
  Uninstall service (app_id_ o)
    (log [EvRead object F_app_id; EvServiceCall (CallUninstall (app_id_ o))] s)
  = Done true s1 ->
  OnUninstall service object method_call s
  = Done tt (log [EvServiceReturn true; EvRun (Reply method_call [])] s1).
Proof.
  intros Ho Hsvc. unfold OnUninstall. open_state s. open_state s1.
  msimpl. rewrite Ho. msimpl. rewrite <- app_assoc. cbn [app].
  rewrite Hsvc. msimpl. f_equal. state_eq.
Qed.

Lemma OnUninstall_failed service object o o' method_call s s1 :
  heap s !! object = Some o ->
  Uninstall service (app_id_ o)
    (log [EvRead object F_app_id; EvServiceCall (CallUninstall (app_id_ o))] s)
  = Done false s1 ->
  heap s1 !! object = Some o' ->
  OnUninstall service object method_call s
  = Done tt (log [EvServiceReturn false;
                  EvRead object F_app_id;
                  EvRun (ErrorResponse method_call
                           kInstalledApplicationDBusError
                           ("Error trying to uninstall application with id "
                            +:+ app_id_ o'))] s1).
Proof.
  intros Ho Hsvc Ho'. unfold OnUninstall. open_state s. open_state s1.
  msimpl. rewrite Ho. msimpl. rewrite <- app_assoc. cbn [app].
  rewrite Hsvc. msimpl. rewrite Ho'. msimpl. f_equal. state_eq.
Qed.

(** ** Heaps that grow by a fresh object *)

Lemma fresh_lookup (hp : gmap nat InstalledApplicationObject) nx q :
  map_Forall (fun object _ => object < nx) hp -> nx <= q -> hp !! q = None.
Proof.
  intros Hf Hq. destruct (hp !! q) as [o|] eqn:Ho; [| done].
  apply Hf in Ho. lia.
Qed.

Lemma live_insert (hp : gmap nat InstalledApplicationObject) p o
    (l : list nat) :
  Forall (fun q => is_Some (hp !! q)) l ->
  Forall (fun q => is_Some (<[p:=o]> hp !! q)) l.
Proof.
  intros Hl. eapply Forall_impl; [exact Hl |]. intros q [oq Hq].
  destruct (decide (p = q)) as [->|Hne].
  - rewrite lookup_insert_eq. by eexists.
  - rewrite lookup_insert_ne by done. by eexists.
Qed.

Lemma live_not_fresh (hp : gmap nat InstalledApplicationObject) p
    (l : list nat) :
  Forall (fun q => is_Some (hp !! q)) l -> hp !! p = None -> p ∉ l.
Proof.
  intros Hl Hp Hin. rewrite Forall_forall in Hl.
  destruct (Hl p Hin) as [o Ho]. congruence.
Qed.

Lemma ids_insert_fresh (hp : gmap nat InstalledApplicationObject) p o
    (l : list nat) :
  p ∉ l ->
  omap (fun q => app_id_ <$> <[p:=o]> hp !! q) l
  = omap (fun q => app_id_ <$> hp !! q) l.
Proof.
  intros Hp. apply list_omap_ext. apply Forall2_same_length_lookup.
  split; [done|]. intros i x y Hx Hy. assert (x = y) as <- by congruence.
  rewrite lookup_insert_ne; [done|]. intros ->. apply Hp.
  by apply list_elem_of_lookup_2 in Hx.
Qed.

Lemma ids_delete_other (hp : gmap nat InstalledApplicationObject) p
    (l : list nat) :
  p ∉ l ->
  omap (fun q => app_id_ <$> delete p hp !! q) l
  = omap (fun q => app_id_ <$> hp !! q) l.
Proof.
  intros Hp. apply list_omap_ext. apply Forall2_same_length_lookup.
  split; [done|]. intros i x y Hx Hy. assert (x = y) as <- by congruence.
  rewrite lookup_delete_ne; [done|]. intros ->. apply Hp.
  by apply list_elem_of_lookup_2 in Hx.
Qed.

Lemma add_method_elem interface method h table e :
  e ∈ add_method interface method h table ->
  e ∈ table \/ e = (interface, method, h).
Proof.
  unfold add_method. destruct (method_exported interface method table).
  - by left.
  - intros [H|H]%elem_of_app; [by left | right].
    by apply list_elem_of_singleton in H.
Qed.

Lemma add_record_sound app s :
  sound s ->
  sound (add_record app s) /\
  installed_ids (add_record app s) = installed_ids s ++ [ID app].
Proof.
  intros (Hf & Hw & Hb & Hl). unfold sound, fresh, objects_at_their_paths,
    bound_objects_live, live, installed_ids, ids_of, add_record, created,
    new_object in *.
  open_state s. msimpl.
  assert (hp !! nx = None) as Hnx by (by apply fresh_lookup with nx).
  pose proof (live_not_fresh _ _ _ Hl Hnx) as Hnin.
  split; [split; [| split; [| split]] |].
  - apply map_Forall_insert_2; [lia |].
    eapply map_Forall_impl; [exact Hf |]. intros q oq Hq. cbn in Hq. lia.
  - intros q oq. destruct (decide (q = nx)) as [->|Hne].
    + rewrite lookup_insert_eq. intros ?. by simplify_eq.
    + rewrite lookup_insert_ne by done. apply Hw.
  - intros p table interface method object Hp Hin.
    assert ((exists old, bs !! p = Some old /\
                         (interface, method, BindOnUninstall object) ∈ old)
            \/ object = nx /\
               p = GetInstalledPathForAppID kInstalledManagerDBusPath (ID app))
      as [(old & Hp' & Hin')|[-> ->]].
    { set (q := GetInstalledPathForAppID kInstalledManagerDBusPath (ID app)) in *.
      destruct (decide (q = p)) as [<-|Hne].
      - rewrite lookup_insert_eq in Hp. injection Hp as <-.
        apply add_method_elem in Hin as [Hin|Hin].
        + destruct (bs !! q) as [t|] eqn:Hq; cbn in Hin.
          * left. by exists t.
          * by apply elem_of_nil in Hin.
        + right. by simplify_eq.
      - rewrite lookup_insert_ne in Hp by done. left. by exists table. }
    + destruct (Hb _ _ _ _ _ Hp' Hin') as (o & Ho & Hpath).
      exists o. split; [| done]. rewrite lookup_insert_ne; [done |].
      intros <-. congruence.
    + eexists. split; [apply lookup_insert_eq | done].
  - apply Forall_app. split; [by apply live_insert |].
    constructor; [| constructor]. rewrite lookup_insert_eq. by eexists.
  - rewrite omap_app. cbn [omap list_omap]. rewrite lookup_insert_eq. cbn.
    by rewrite ids_insert_fresh.
Qed.

Lemma ids_of_app s (l1 l2 : list nat) :
  ids_of s (l1 ++ l2) = ids_of s l1 ++ ids_of s l2.
Proof. apply omap_app. Qed.

Lemma ids_of_live_elem s (l : list nat) p o :
  p ∈ l -> heap s !! p = Some o -> app_id_ o ∈ ids_of s l.
Proof.
  intros Hin Hp. apply list_elem_of_omap. exists p. by rewrite Hp.
Qed.

Lemma installed_consistent app s :
  consistent s -> apps s !! ID app = None ->
  consistent (installed app (set_apps (insert (ID app) app) s)).
Proof.
  intros (Hk & Hs & Hl & Hnd & Hm) Hnew.
  destruct (add_record_sound app (set_apps (insert (ID app) app) s) Hs)
    as [Hs' Hids].
  change (installed_ids (set_apps (insert (ID app) app) s))
    with (installed_ids s) in Hids.
  split; [| split; [exact Hs' | split; [apply Hs' | split]]].
  - intros id a. fields.
    destruct (decide (ID app = id)) as [<-|Hne].
    + rewrite lookup_insert_eq. by intros [= <-].
    + rewrite lookup_insert_ne by done. apply Hk.
  - change (NoDup (installed_ids (add_record app
                                    (set_apps (insert (ID app) app) s)))).
    rewrite Hids. apply NoDup_app. split; [done | split].
    + intros x Hx ->%list_elem_of_singleton. apply Hm in Hx as [a Ha].
      congruence.
    + apply NoDup_singleton.
  - intros id.
    change (id ∈ installed_ids (add_record app
                                  (set_apps (insert (ID app) app) s))
            <-> is_Some (<[ID app := app]> (apps s) !! id)).
    rewrite Hids, elem_of_app, list_elem_of_singleton, Hm.
    destruct (decide (ID app = id)) as [<-|Hne].
    + rewrite lookup_insert_eq. split; [by eexists | by right].
    + rewrite lookup_insert_ne by done. split; [| by left].
      intros [H|H]; [done | congruence].
Qed.

Lemma uninstalled_consistent id l1 p o l2 s :
  consistent s -> installed_apps_ s = l1 ++ p :: l2 ->
  heap s !! p = Some o -> app_id_ o = id ->
  consistent (uninstalled l1 p o l2 (set_apps (delete id) s)).
Proof.
  intros (Hk & (Hf & Hw & Hb & _) & Hl & Hnd & Hm) Hs Hp Ho.
  unfold installed_ids in Hnd, Hm. rewrite Hs in Hl, Hnd, Hm.
  change (p :: l2) with ([p] ++ l2) in Hnd, Hm, Hl.
  rewrite !ids_of_app in Hnd, Hm.
  assert (ids_of s [p] = [id]) as Hidp.
  { unfold ids_of. cbn. rewrite Hp. cbn. by rewrite Ho. }
  rewrite Hidp in Hnd, Hm.
  apply NoDup_app in Hnd as (Hnd1 & Hn1 & Hnd2).
  apply NoDup_app in Hnd2 as (_ & Hn2 & Hnd2).
  apply Forall_app in Hl as [Hl1 Hl2]. apply Forall_app in Hl2 as [_ Hl2].
  assert (id ∉ ids_of s l1) as Hid1.
  { intros Hin. apply (Hn1 id Hin). apply elem_of_app. left.
    apply list_elem_of_here. }
  assert (id ∉ ids_of s l2) as Hid2.
  { apply Hn2. apply list_elem_of_here. }
  assert (p ∉ l1 ++ l2) as Hpn.
  { intros [Hin|Hin]%elem_of_app.
    - apply Hid1. rewrite <- Ho. by apply ids_of_live_elem with p.
    - apply Hid2. rewrite <- Ho. by apply ids_of_live_elem with p. }
  assert (live (uninstalled l1 p o l2 (set_apps (delete id) s)) (l1 ++ l2))
    as Hlive.
  { unfold live, uninstalled. open_state s. msimpl.
    apply Forall_forall. intros q Hq.
    rewrite lookup_delete_ne by (intros ->; done).
    assert (Forall (fun q => is_Some (hp !! q)) (l1 ++ l2)) as Hall
      by (by apply Forall_app).
    rewrite Forall_forall in Hall. by apply Hall. }
  assert (installed_ids (uninstalled l1 p o l2 (set_apps (delete id) s))
          = ids_of s l1 ++ ids_of s l2) as Hids.
  { rewrite <- ids_of_app. unfold installed_ids, ids_of, uninstalled.
    open_state s. msimpl. by apply ids_delete_other. }
  split; [| split; [split; [| split; [| split]] | split; [| split]]].
  - intros x a. fields.
    intros [_ Ha]%lookup_delete_Some. by apply Hk.
  - unfold fresh. fields. by apply map_Forall_delete.
  - intros q oq. fields.
    intros [_ Hq]%lookup_delete_Some. by apply Hw with q.
  - intros q table interface method object. fields.
    intros [Hne Hq]%lookup_delete_Some Hin.
    destruct (Hb _ _ _ _ _ Hq Hin) as (oo & Hoo & Hpath).
    exists oo. split; [| done]. apply lookup_delete_Some. split; [| done].
    intros ->. congruence.
  - exact Hlive.
  - exact Hlive.
  - rewrite Hids. apply NoDup_app. split; [done | split; [| done]].
    intros x Hx1 Hx2. apply (Hn1 x Hx1). apply elem_of_app. by right.
  - intros x. rewrite Hids. fields.
    rewrite elem_of_app. destruct (decide (x = id)) as [->|Hne].
    + rewrite lookup_delete_eq. split; [| by intros [? ?]].
      intros [H|H]; done.
    + rewrite lookup_delete_ne by done. rewrite <- Hm.
      rewrite !elem_of_app, list_elem_of_singleton. split.
      * intros [H|H]; [by left | by right; right].
      * intros [H|[H|H]]; [by left | done | by right].
Qed.

Lemma consistent_log evs s : consistent s -> consistent (log evs s).
Proof. intros H. exact H. Qed.

(** ** Startup *)

Lemma CreateInitialObjects_loop_sound l : forall s,
  sound s ->
  exists s', CreateInitialObjects_loop l s = Done tt s' /\ sound s' /\
             apps s' = apps s /\
             installed_ids s' = installed_ids s ++ map (fun e => ID e.2) l.
Proof.
  induction l as [|[k app] l IH]; intros s Hs.
  - exists s. cbn. by rewrite app_nil_r.
  - destruct (add_record_sound app s Hs) as [Hs' Hids].
    destruct (IH (log (created_events app s ++ [EvPushBack (next_object s)])
                    (add_record app s)) Hs')
      as (s' & Hrun & Hsound & Happs & Hids').
    exists s'. split; [| split; [done | split; [done |]]].
    + cbn [CreateInitialObjects_loop snd]. unfold bind at 1.
      rewrite CreateObject_run. rewrite <- Hrun.
      unfold add_record, created, created_events. open_state s. msimpl.
      f_equal. state_eq.
    + rewrite Hids'. change (installed_ids (log _ ?x)) with (installed_ids x).
      rewrite Hids. cbn [map snd]. by rewrite <- app_assoc.
Qed.

Lemma startup_consistent store :
  keyed_by_ID store ->
  exists s, InstalledApplicationsManager (startup store) = Done tt s /\
            consistent s.
Proof.
  intros Hk. unfold InstalledApplicationsManager, CreateInitialObjects.
  unfold startup. msimpl.
  match goal with
  | |- context [CreateInitialObjects_loop _ ?s0] =>
      destruct (CreateInitialObjects_loop_sound (map_to_list store) s0)
        as (s' & -> & Hs' & Happs & Hids)
  end.
  - split; [| split; [| split]].
    + apply map_Forall_empty.
    + intros q oq. msimpl. by rewrite lookup_empty.
    + intros p table interface method object. msimpl.
      rewrite lookup_empty, !lookup_insert_eq. cbn.
      rewrite !insert_insert_eq.
      intros Hp Hin. destruct (decide (kInstalledManagerDBusPath = p)) as [<-|Hne].
      * rewrite lookup_insert_eq in Hp. injection Hp as <-.
        apply elem_of_cons in Hin as [Hin|Hin]; [discriminate Hin |].
        apply elem_of_cons in Hin as [Hin|Hin]; [discriminate Hin |].
        by apply elem_of_nil in Hin.
      * rewrite lookup_insert_ne, lookup_empty in Hp by done. discriminate Hp.
    + constructor.
  - exists s'. split; [done |]. cbn in Hids, Happs.
    assert (map (fun e : string * ApplicationData => ID e.2) (map_to_list store)
            = (map_to_list store).*1) as Heq.
    { apply map_ext_in. intros [k a] Hin. cbn. apply Hk.
      apply elem_of_map_to_list. by apply list_elem_of_In. }
    rewrite Heq in Hids.
    split; [by rewrite Happs | split; [done | split; [apply Hs' | split]]].
    + rewrite Hids. apply NoDup_fst_map_to_list.
    + intros id. rewrite Hids, Happs. rewrite list_elem_of_fmap. split.
      * intros [[k a] [-> Hin]]. apply elem_of_map_to_list in Hin. by eexists.
      * intros [a Ha]. exists (id, a). split; [done |].
        by apply elem_of_map_to_list.
Qed.

(** ** One turn *)

Lemma service_Install_consistent package file_path s :
  consistent s ->
  exists ok id s1,
    service_Install package file_path s = Done (ok, id) s1 /\
    consistent s1 /\ (ok = true -> id ∈ installed_ids s1).
Proof.
  intros Hc. destruct package as [app|].
  - destruct (apps s !! ID app) as [a|] eqn:Ha.
    + exists false, EmptyString, s.
      rewrite service_Install_known by eauto. done.
    + exists true, (ID app), (installed app (set_apps (insert (ID app) app) s)).
      rewrite service_Install_new by done.
      pose proof (installed_consistent app s Hc Ha) as Hc'.
      split; [done | split; [done |]]. intros _.
      apply Hc'. fields. rewrite lookup_insert_eq. by eexists.
  - exists false, EmptyString, s. done.
Qed.

Lemma service_Uninstall_consistent accept id s :
  consistent s ->
  exists ok s1,
    service_Uninstall accept id s = Done ok s1 /\ consistent s1 /\
    (ok = false -> s1 = s).
Proof.
  intros Hc. destruct accept.
  - destruct (apps s !! id) as [a|] eqn:Ha.
    + rewrite service_Uninstall_accepted by eauto.
      destruct Hc as (Hk & Hs & Hm).
      assert (id ∈ installed_ids s) as Hin by (apply Hm; eauto).
      destruct (first_record s id _ (proj1 Hm) Hin)
        as (l1 & p & o & l2 & Hia & Hl1 & Hn & Hp & Ho).
      rewrite (OnApplicationUninstalled_present id l1 p o l2) by done.
      eexists true, _. split; [done | split; [| done]].
      by apply uninstalled_consistent.
    + exists false, s. by rewrite service_Uninstall_unknown.
  - exists false, s. by rewrite service_Uninstall_refused.
Qed.

Lemma OnInstall_consistent package accept method_call s :
  consistent s ->
  exists s', OnInstall (application_service_ package accept) method_call s
             = Done tt s' /\ consistent s'.
Proof.
  intros Hc.
  destruct (PopString (arguments method_call)) as [file_path|] eqn:Hpop.
  - destruct (IsAbsolute file_path) eqn:Habs.
    + destruct (service_Install_consistent package file_path
                  (log [EvServiceCall (CallInstall file_path)] s) Hc)
        as (ok & id & s1 & Hsvc & Hc1 & Hin).
      destruct ok.
      * destruct Hc1 as (Hk & Hs & Hm). specialize (Hin eq_refl).
        destruct (first_record s1 id _ (proj1 Hm) Hin)
          as (l1 & p & o & l2 & Hia & Hl1 & Hn & Hp & Ho).
        eexists. split.
        -- by apply (OnInstall_found (application_service_ package accept)
                       method_call file_path s id s1 l1 p o l2).
        -- by apply consistent_log.
      * eexists. split.
        -- by apply (OnInstall_failed (application_service_ package accept)
                       method_call file_path s id s1).
        -- by apply consistent_log.
    + eexists. split; [by apply OnInstall_relative with file_path |].
      by apply consistent_log.
  - eexists. unfold OnInstall. rewrite Hpop. split; [reflexivity |].
    by apply consistent_log.
Qed.

Lemma OnUninstall_consistent package accept object method_call s :
  consistent s -> is_Some (heap s !! object) ->
  exists s', OnUninstall (application_service_ package accept) object
               method_call s = Done tt s' /\ consistent s'.
Proof.
  intros Hc [o Ho].
  destruct (service_Uninstall_consistent accept (app_id_ o)
              (log [EvRead object F_app_id;
                    EvServiceCall (CallUninstall (app_id_ o))] s) Hc)
    as (ok & s1 & Hsvc & Hc1 & Hsame).
  destruct ok.
  - eexists. split.
    + by apply (OnUninstall_succeeded (application_service_ package accept)
                  object o method_call s s1).
    + by apply consistent_log.
  - eexists. split.
    + apply (OnUninstall_failed (application_service_ package accept)
               object o o method_call s s1); [done | done |].
      by rewrite Hsame.
    + by apply consistent_log.
Qed.

Lemma lookup_method_bound p interface method s h :
  lookup_method p interface method s = Some h ->
  exists table i m, bus_ s !! p = Some table /\ (i, m, h) ∈ table.
Proof.
  unfold lookup_method. destruct (bus_ s !! p) as [table|]; [| done].
  destruct (List.find _ table) as [[[i m] h']|] eqn:Hfind; [| done].
  intros [= <-]. exists table, i, m. split; [done |].
  apply List.find_some in Hfind as [Hin _]. by apply list_elem_of_In.
Qed.

Lemma turn_consistent t s :
  consistent s -> exists s', turn t s = Done tt s' /\ consistent s'.
Proof.
  intros Hc. unfold turn. destruct (operation t) as [p i m mc|fp|id].
  - unfold deliver, bind at 1, get.
    destruct (lookup_method p i m s) as [[| |object]|] eqn:Hlook.
    + eexists. split.
      * apply OnGetManagedObjects_run. apply Hc.
      * by apply consistent_log.
    + by apply OnInstall_consistent.
    + apply OnUninstall_consistent; [done |].
      apply lookup_method_bound in Hlook as (table & i' & m' & Hp & Hin).
      destruct Hc as (_ & (_ & _ & Hb & _) & _).
      destruct (Hb _ _ _ _ _ Hp Hin) as (o & Ho & _). by eexists.
    + by exists s.
  - destruct (service_Install_consistent (package t) fp
                (log [EvServiceCall (CallInstall fp)] s) Hc)
      as (ok & id & s1 & Hsvc & Hc1 & _).
    exists (log [EvServiceReturn ok] s1). split; [| by apply consistent_log].
    unfold bind at 1, call_Install, bind at 1, emit, modify, bind at 1.
    cbn [Install application_service_]. rewrite Hsvc. reflexivity.
  - destruct (service_Uninstall_consistent (accept t) id
                (log [EvServiceCall (CallUninstall id)] s) Hc)
      as (ok & s1 & Hsvc & Hc1 & _).
    exists (log [EvServiceReturn ok] s1). split; [| by apply consistent_log].
    unfold bind at 1, call_Uninstall, bind at 1, emit, modify, bind at 1.
    cbn [Uninstall application_service_]. rewrite Hsvc. reflexivity.
Qed.

Lemma run_consistent turns : forall s,
  consistent s -> exists s', run turns s = Done tt s' /\ consistent s'.
Proof.
  induction turns as [|t turns IH]; intros s Hc.
  - by exists s.
  - destruct (turn_consistent t s Hc) as (s1 & Hturn & Hc1).
    destruct (IH s1 Hc1) as (s' & Hrun & Hc').
    exists s'. split; [| done]. cbn [run]. unfold bind. by rewrite Hturn.
Qed.

Lemma managed_paths s (l : list nat) :
  objects_at_their_paths s ->
  (managed_objects s l).*1
  = GetInstalledPathForAppID kInstalledManagerDBusPath <$> ids_of s l.
Proof.
  intros Hw. induction l as [|p l IH]; [done |].
  unfold managed_objects, ids_of in *. cbn [omap list_omap].
  destruct (heap s !! p) as [o|] eqn:Hp; cbn; [| done].
  by rewrite IH, (Hw p o Hp).
Qed.

(** * The claims of the specification *)

(** C1.  From any store that files its applications under their
    identities, the manager is constructed and then any sequence of turns is
    run: method calls delivered by the bus, and installs and uninstalls by
    other clients of the service, each accepted or rejected.  The run
    returns normally, and in the state it leaves the identities of the
    collection are those of the store, each once, with no dangling record;
    an enumeration answers with exactly the paths derived from these
    identities. *)
Theorem mirror_invariant store turns enumerate :
  keyed_by_ID store ->
  exists s,
    (InstalledApplicationsManager;; run turns) (startup store) = Done tt s /\
    mirror s /\
    OnGetManagedObjects enumerate s
    = Done tt (log (enumeration_reads (installed_apps_ s) ++
                    [EvRun (Reply enumerate
                       [ArgManagedObjects
                          (managed_objects s (installed_apps_ s))])]) s) /\
    (managed_objects s (installed_apps_ s)).*1
    = GetInstalledPathForAppID kInstalledManagerDBusPath <$> installed_ids s.
Proof.
  intros Hk. destruct (startup_consistent store Hk) as (s0 & Hstart & Hc0).
  destruct (run_consistent turns s0 Hc0) as (s & Hrun & Hc).
  exists s. split; [| split; [apply Hc | split]].
  - unfold bind. by rewrite Hstart.
  - apply OnGetManagedObjects_run. apply Hc.
  - apply managed_paths. apply Hc.
Qed.


(** C6.  Install with a path that is not absolute: the handler answers with
    the error "Path to install must be absolute." and does nothing else.
    The state it leaves is the state it found plus that one response, so the
    service was not called, no record was created and no signal was sent;
    this holds against any service. *)
Theorem install_requires_absolute_path service method_call file_path s :
  PopString (arguments method_call) = Some file_path ->
  IsAbsolute file_path = false ->
  OnInstall service method_call s
  = Done tt (log [EvRun (ErrorResponse method_call kInstalledManagerDBusError
                           "Path to install must be absolute.")] s).
Proof. apply OnInstall_relative. Qed.

(** C7.  Install with an absolute path when the store reports failure: the
    handler sends exactly one error response, whose message is "Error
    installing application with path: " followed by the path it was given,
    and the state is otherwise the one it found: the collection, the heap
    and the bus are unchanged and no signal is sent. *)
Theorem install_failure_creates_nothing
    package accept method_call file_path s id s1 :
  PopString (arguments method_call) = Some file_path ->
  IsAbsolute file_path = true ->
  service_Install package file_path
    (log [EvServiceCall (CallInstall file_path)] s) = Done (false, id) s1 ->
  OnInstall (application_service_ package accept) method_call s
  = Done tt (log [EvServiceCall (CallInstall file_path);
                  EvServiceReturn false;
                  EvRun (ErrorResponse method_call kInstalledManagerDBusError
                           ("Error installing application with path: "
                            +:+ file_path))] s).
Proof.
  intros Hpop Habs Hsvc.
  pose proof (service_Install_failed _ _ _ _ _ Hsvc) as ->.
  rewrite (OnInstall_failed (application_service_ package accept)
             _ _ _ _ _ Hpop Habs Hsvc).
  open_state s. f_equal. state_eq.
Qed.

(** C8.  Uninstall on an object when the store reports failure: the handler
    sends exactly one error response, with the object's error name and the
    message "Error trying to uninstall application with id " followed by
    the identity; the collection, the heap and the bus are as before, and an
    enumeration made afterwards still lists the object. *)
Theorem uninstall_failure_keeps_object
    package accept object o method_call s s1 :
  heap s !! object = Some o ->
  service_Uninstall accept (app_id_ o)
    (log [EvRead object F_app_id; EvServiceCall (CallUninstall (app_id_ o))] s)
  = Done false s1 ->
  let s' :=
    log [EvRead object F_app_id;
         EvServiceCall (CallUninstall (app_id_ o));
         EvServiceReturn false;
         EvRead object F_app_id;
         EvRun (ErrorResponse method_call kInstalledApplicationDBusError
                  ("Error trying to uninstall application with id "
                   +:+ app_id_ o))] s in
  OnUninstall (application_service_ package accept) object method_call s
  = Done tt s' /\
  forall enumerate,
    live s (installed_apps_ s) -> object ∈ installed_apps_ s ->
    exists entries,
      OnGetManagedObjects enumerate s'
      = Done tt (log (enumeration_reads (installed_apps_ s) ++
                      [EvRun (Reply enumerate [ArgManagedObjects entries])])
                   s') /\
      (path_ o, properties_ o) ∈ entries.
Proof.
  intros Ho Hsvc s'. split.
  - pose proof (service_Uninstall_failed _ _ _ _ Hsvc) as ->.
    rewrite (OnUninstall_failed (application_service_ package accept)
               object o o method_call s _ Ho Hsvc).
    + subst s'. open_state s. f_equal. state_eq.
    + exact Ho.
  - intros enumerate Hl Hin. exists (managed_objects s (installed_apps_ s)).
    split.
    + rewrite OnGetManagedObjects_run; [reflexivity | exact Hl].
    + unfold managed_objects. apply list_elem_of_omap. exists object.
      split; [exact Hin | by rewrite Ho].
Qed.

(** C9.  An uninstall notification for an identity the collection does not
    hold: the callback compares the identity with that of every record,
    logs a warning and returns.  The state is the one it found plus those
    reads and the warning: no signal, nothing unregistered, the collection
    unchanged, and a normal return. *)
Theorem unknown_uninstall_is_a_no_op id s :
  live s (installed_apps_ s) -> id ∉ installed_ids s ->
  OnApplicationUninstalled id s
  = Done tt (log (reads F_app_id (installed_apps_ s) ++
                  [EvLogWarning
                     "Notified about uninstallation of unknown app_id."]) s).
Proof. apply OnApplicationUninstalled_absent. Qed.

(** C3.  An uninstall notification for an identity the collection holds:
    after the search, the callback reads the path and the interfaces of the
    first record with that identity, sends one InterfacesRemoved signal
    with them, unregisters the object's path from the bus and then erases
    the record, which destroys the object, in this order. *)
Theorem removal_notifies_unregisters_destroys id s :
  live s (installed_apps_ s) -> id ∈ installed_ids s ->
  exists l1 object o l2,
    installed_apps_ s = l1 ++ object :: l2 /\ (id ∉ ids_of s l1) /\
    heap s !! object = Some o /\ app_id_ o = id /\
    OnApplicationUninstalled id s
    = Done tt
        (log (reads F_app_id (l1 ++ [object]) ++
              [EvRead object F_path;
               EvRead object F_interfaces;
               EvSendSignal
                 (mkSignal kDBusObjectManagerInterface "InterfacesRemoved"
                    [ArgObjectPath (path_ o);
                     ArgArrayOfStrings (interfaces_ o)]);
               EvRead object F_path;
               EvUnregisterExportedObject (path_ o);
               EvErase object])
           (set_heap (delete object)
              (set_installed_apps (fun _ => l1 ++ l2)
                 (set_bus (delete (path_ o)) s)))).
Proof.
  intros Hl Hid.
  destruct (first_record s id _ Hl Hid) as (l1 & p & o & l2 & Hs & Hl1 & Hn & Hp & Ho).
  exists l1, p, o, l2. repeat split; try done.
  by rewrite (OnApplicationUninstalled_present id l1 p o l2 s).
Qed.

(** C4.  An install notification for an identity the store knows: the
    callback constructs the object, exports its Uninstall method at its
    path, appends it to the collection and then sends one InterfacesAdded
    signal with the object's path and all its properties, in this order. *)
Theorem addition_registers_then_notifies id app s :
  apps s !! id = Some app ->
  let object := next_object s in
  let o := new_object app in
  OnApplicationInstalled id s
  = Done tt
      (log [EvNew object;
            EvRead object F_path;
            EvExportMethod (path_ o) kInstalledApplicationDBusInterface
                           "Uninstall";
            EvPushBack object;
            EvRead object F_path;
            EvRead object F_properties;
            EvSendSignal
              (mkSignal kDBusObjectManagerInterface "InterfacesAdded"
                 [ArgObjectPath (path_ o); ArgProperties (properties_ o)])]
         (set_installed_apps (fun l => l ++ [object])
            (set_bus (fun b =>
                <[path_ o :=
                    add_method kInstalledApplicationDBusInterface "Uninstall"
                      (BindOnUninstall object) (default [] (b !! path_ o))]> b)
               (set_next_object (S object)
                  (set_heap (insert object o) s))))).
Proof.
  intros Happ object o. by rewrite (OnApplicationInstalled_run id app s).
Qed.

(** C2, as the code has it.  The handler reads the object's identity and
    then calls the service.  When the service reports success the handler
    adds the reply to the method call and nothing else: it does not read
    the object again, whatever the service did to it.  When the service
    reports failure, and left the object alive, the handler reads the
    object's identity once more, for the message of the error response. *)
Theorem uninstall_reads_object_again_only_on_failure
    service object o method_call s ok s1 :
  heap s !! object = Some o ->
  Uninstall service (app_id_ o)
    (log [EvRead object F_app_id; EvServiceCall (CallUninstall (app_id_ o))] s)
  = Done ok s1 ->
  (ok = true ->
   OnUninstall service object method_call s
   = Done tt (log [EvServiceReturn true; EvRun (Reply method_call [])] s1)) /\
  (ok = false -> forall o', heap s1 !! object = Some o' ->
   OnUninstall service object method_call s
   = Done tt (log [EvServiceReturn false;
                   EvRead object F_app_id;
                   EvRun (ErrorResponse method_call
                            kInstalledApplicationDBusError
                            ("Error trying to uninstall application with id "
                             +:+ app_id_ o'))] s1)).
Proof.
  intros Ho Hsvc. split.
  - intros ->. by apply OnUninstall_succeeded with o.
  - intros -> o' Ho'. by apply OnUninstall_failed with o.
Qed.

(** C5.  Install when the service reports success with identity [id].
    If the collection then holds a record with that identity, the handler
    replies to the call with the path of the first such record; if it holds
    none, the [CHECK] fails and no reply is sent.  With the service of the
    spec the record is there: the observer callback has run before the
    service returned. *)
Theorem install_success_replies_with_record_path
    service method_call file_path s id s1 :
  PopString (arguments method_call) = Some file_path ->
  IsAbsolute file_path = true ->
  Install service file_path (log [EvServiceCall (CallInstall file_path)] s)
  = Done (true, id) s1 ->
  (forall package accept,
     service = application_service_ package accept ->
     live s (installed_apps_ s) ->
     live s1 (installed_apps_ s1) /\ id ∈ installed_ids s1) /\
  (live s1 (installed_apps_ s1) -> id ∈ installed_ids s1 ->
   exists l1 object o l2,
     installed_apps_ s1 = l1 ++ object :: l2 /\ (id ∉ ids_of s1 l1) /\
     heap s1 !! object = Some o /\ app_id_ o = id /\
     OnInstall service method_call s
     = Done tt (log (EvServiceReturn true
                     :: reads F_app_id (l1 ++ [object]) ++
                     [EvRead object F_path;
                      EvRun (Reply method_call [ArgObjectPath (path_ o)])])
                  s1)) /\
  (live s1 (installed_apps_ s1) -> id ∉ installed_ids s1 ->
   OnInstall service method_call s
   = CheckFailed (log (EvServiceReturn true
                       :: reads F_app_id (installed_apps_ s1)) s1)).
Proof.
  intros Hpop Habs Hsvc. split; [| split].
  - intros package accept -> Hl. cbn [Install application_service_] in Hsvc.
    destruct package as [app|]; [| discriminate Hsvc].
    destruct (apps s !! ID app) as [a|] eqn:Ha.
    + rewrite service_Install_known in Hsvc; [discriminate Hsvc |].
      open_state s. msimpl. eauto.
    + rewrite service_Install_new in Hsvc by (open_state s; exact Ha).
      injection Hsvc as <- <-. unfold installed_ids, ids_of, live.
      unfold installed, created, new_object. open_state s. msimpl. split.
      * apply Forall_app. split.
        -- by apply live_insert.
        -- constructor; [| constructor]. rewrite lookup_insert_eq. by eexists.
      * rewrite omap_app. apply elem_of_app. right. cbn [omap list_omap].
        rewrite lookup_insert_eq. cbn. apply list_elem_of_here.
  - intros Hl Hid.
    destruct (first_record s1 id _ Hl Hid)
      as (l1 & p & o & l2 & Hs & Hl1 & Hn & Hp & Ho).
    exists l1, p, o, l2. repeat split; try done.
    by apply OnInstall_found with file_path id l2.
  - intros Hl Hid. by apply OnInstall_lost with file_path id.
Qed.

(** C10.  Two install notifications for one identity, with no uninstall
    notification between them: each appends a record of its own, so the
    collection ends with two records of that identity, at the same path.
    If it held none before, an uninstall notification for the identity
    then erases the first of the two and leaves the second. *)
Theorem repeated_install_notification_duplicates id app s :
  apps s !! id = Some app -> ID app = id ->
  live s (installed_apps_ s) -> fresh s ->
  let first := next_object s in
  let second := S (next_object s) in
  let o := new_object app in
  exists s2,
    (OnApplicationInstalled id;; OnApplicationInstalled id) s = Done tt s2 /\
    installed_apps_ s2 = installed_apps_ s ++ [first; second] /\
    heap s2 !! first = Some o /\ heap s2 !! second = Some o /\
    app_id_ o = id /\
    installed_ids s2 = installed_ids s ++ [id; id] /\
    (id ∉ installed_ids s ->
     exists s3,
       OnApplicationUninstalled id s2 = Done tt s3 /\
       installed_apps_ s3 = installed_apps_ s ++ [second] /\
       heap s3 !! first = None /\ heap s3 !! second = Some o /\
       installed_ids s3 = installed_ids s ++ [id]).
Proof.
  intros Happ Hid Hl Hf first second o.
  assert (heap s !! first = None) as Hfirst
    by (apply fresh_lookup with (next_object s); [done | subst first; lia]).
  assert (heap s !! second = None) as Hsecond
    by (apply fresh_lookup with (next_object s); [done | subst second; lia]).
  pose proof (live_not_fresh _ _ _ Hl Hfirst) as Hn1.
  pose proof (live_not_fresh _ _ _ Hl Hsecond) as Hn2.
  subst first second o.
  eexists. split; [| split; [| split; [| split; [| split; [| split]]]]].
  - unfold bind. rewrite (OnApplicationInstalled_run id app s Happ).
    rewrite (OnApplicationInstalled_run id app); [reflexivity |].
    open_state s. exact Happ.
  - unfold installed, created. open_state s. msimpl.
    by rewrite <- app_assoc.
  - unfold installed, created. open_state s. msimpl.
    rewrite lookup_insert_ne by lia. apply lookup_insert_eq.
  - unfold installed, created. open_state s. msimpl. apply lookup_insert_eq.
  - exact Hid.
  - unfold installed_ids, ids_of, installed, created. open_state s. msimpl.
    rewrite !omap_app. cbn [omap list_omap].
    rewrite lookup_insert_eq, lookup_insert_ne, lookup_insert_eq by lia.
    cbn. rewrite !ids_insert_fresh by done.
    cbn. rewrite Hid. by rewrite <- app_assoc.
  - intros Hnone. eexists.
    split; [| split; [| split; [| split]]].
    + apply (OnApplicationUninstalled_present id (installed_apps_ s)
               (next_object s) (new_object app) [S (next_object s)]).
      * unfold installed, created. open_state s. msimpl.
        by rewrite <- app_assoc.
      * unfold live, installed, created. open_state s. msimpl.
        by do 2 apply live_insert.
      * unfold ids_of, installed, created. open_state s. msimpl.
        by rewrite !ids_insert_fresh.
      * unfold installed, created. open_state s. msimpl.
        rewrite lookup_insert_ne by lia. apply lookup_insert_eq.
      * exact Hid.
    + reflexivity.
    + unfold uninstalled. open_state s. msimpl. apply lookup_delete_eq.
    + unfold uninstalled, installed, created. open_state s. msimpl.
      rewrite lookup_delete_ne by lia. apply lookup_insert_eq.
    + unfold installed_ids, ids_of, uninstalled, installed, created.
      open_state s. msimpl. rewrite omap_app. cbn [omap list_omap].
      rewrite lookup_delete_ne, lookup_insert_eq by lia. cbn.
      rewrite ids_delete_other, !ids_insert_fresh by done.
      cbn. by rewrite Hid.
Qed.

(** * Further properties of the code *)

Lemma responses_app evs1 evs2 :
  responses (evs1 ++ evs2) = responses evs1 + responses evs2.
Proof. unfold responses. by rewrite List.filter_app, length_app. Qed.

Lemma responses_reads f l : responses (reads f l) = 0.
Proof. induction l as [|p l IH]; [done | exact IH]. Qed.

(** X1.  Install on a call whose first argument is not a string: the
    handler answers with the error "Error parsing message." and does
    nothing else, against any service. *)
Theorem install_rejects_unreadable_argument service method_call s :
  PopString (arguments method_call) = None ->
  OnInstall service method_call s
  = Done tt (log [EvRun (ErrorResponse method_call kInstalledManagerDBusError
                           "Error parsing message.")] s).
Proof. intros Hpop. unfold OnInstall. by rewrite Hpop. Qed.

Lemma managed_objects_live s (l : list nat) :
  live s l ->
  Forall2 (fun object entry =>
             exists o, heap s !! object = Some o /\
                       entry = (path_ o, properties_ o))
          l (managed_objects s l).
Proof.
  induction l as [|p l IH]; intros Hl; [constructor |].
  apply Forall_cons in Hl as [[o Ho] Hl].
  unfold managed_objects in *. cbn [omap list_omap]. rewrite Ho. cbn.
  constructor; [by exists o | by apply IH].
Qed.

(** X2.  GetManagedObjects answers with one entry per record of the
    collection, in the collection's order, each the record's path and
    properties; an empty collection gives an empty array.  It reads the path
    and the properties of every record and changes nothing. *)
Theorem enumeration_lists_every_record method_call s :
  live s (installed_apps_ s) ->
  exists entries,
    OnGetManagedObjects method_call s
    = Done tt (log (enumeration_reads (installed_apps_ s) ++
                    [EvRun (Reply method_call [ArgManagedObjects entries])])
                 s) /\
    Forall2 (fun object entry =>
               exists o, heap s !! object = Some o /\
                         entry = (path_ o, properties_ o))
            (installed_apps_ s) entries.
Proof.
  intros Hl. exists (managed_objects s (installed_apps_ s)). split.
  - by apply OnGetManagedObjects_run.
  - by apply managed_objects_live.
Qed.

(** X3.  Two enumerations in a row, with nothing between them, answer with
    the same entries. *)
Theorem enumeration_is_repeatable first_call second_call s :
  live s (installed_apps_ s) ->
  exists entries s1 s2,
    OnGetManagedObjects first_call s = Done tt s1 /\
    OnGetManagedObjects second_call s1 = Done tt s2 /\
    last (trace s1)
    = Some (EvRun (Reply first_call [ArgManagedObjects entries])) /\
    last (trace s2)
    = Some (EvRun (Reply second_call [ArgManagedObjects entries])).
Proof.
  intros Hl.
  pose proof (OnGetManagedObjects_run first_call s Hl) as H1.
  destruct (OnGetManagedObjects first_call s) as [[] s1| |] eqn:E1;
    try discriminate H1.
  injection H1 as ->.
  assert (live (log (enumeration_reads (installed_apps_ s) ++
                     [EvRun (Reply first_call
                        [ArgManagedObjects
                           (managed_objects s (installed_apps_ s))])]) s)
               (installed_apps_ s)) as Hl1 by exact Hl.
  exists (managed_objects s (installed_apps_ s)). eexists _, _.
  split; [reflexivity |].
  split; [exact (OnGetManagedObjects_run second_call _ Hl1) |].
  split.
  - open_state s. msimpl. rewrite app_assoc, last_snoc. reflexivity.
  - open_state s. msimpl. rewrite !app_assoc, last_snoc. reflexivity.
Qed.

(** ** Startup *)






(** ** Ownership *)

Lemma installed_owned app s :
  owned s -> owned (installed app s).
Proof.
  intros [Hs Hnd]. destruct (add_record_sound app s Hs) as [Hs' _].
  split; [exact Hs' |].
  destruct Hs as (Hf & _ & _ & Hl).
  assert (heap s !! next_object s = None) as Hnx
    by (by apply fresh_lookup with (next_object s)).
  pose proof (live_not_fresh _ _ _ Hl Hnx) as Hnin.
  fields. apply NoDup_app. split; [done | split; [| apply NoDup_singleton]].
  intros x Hx ->%list_elem_of_singleton. done.
Qed.

Lemma uninstalled_owned l1 p o l2 s :
  owned s -> installed_apps_ s = l1 ++ p :: l2 -> heap s !! p = Some o ->
  owned (uninstalled l1 p o l2 s).
Proof.
  intros [(Hf & Hw & Hb & Hl) Hnd] Hs Hp. rewrite Hs in Hl, Hnd.
  apply NoDup_app in Hnd as (Hnd1 & Hn1 & Hnd2).
  apply NoDup_cons in Hnd2 as [Hn2 Hnd2].
  apply Forall_app in Hl as [Hl1 Hl2]. apply Forall_cons in Hl2 as [_ Hl2].
  assert (p ∉ l1 ++ l2) as Hpn.
  { intros [Hin|Hin]%elem_of_app; [| done].
    apply (Hn1 p Hin). apply list_elem_of_here. }
  split; [split; [| split; [| split]] |].
  - unfold fresh. fields. by apply map_Forall_delete.
  - intros q oq. fields.
    intros [_ Hq]%lookup_delete_Some. by apply Hw with q.
  - intros q table interface method object. fields.
    intros [Hne Hq]%lookup_delete_Some Hin.
    destruct (Hb _ _ _ _ _ Hq Hin) as (oo & Hoo & Hpath).
    exists oo. split; [| done]. apply lookup_delete_Some. split; [| done].
    intros ->. congruence.
  - unfold live. fields. apply Forall_forall. intros q Hq.
    rewrite lookup_delete_ne by (intros ->; done).
    assert (Forall (fun q => is_Some (heap s !! q)) (l1 ++ l2)) as Hall
      by (by apply Forall_app).
    rewrite Forall_forall in Hall. by apply Hall.
  - fields. apply NoDup_app. split; [done | split; [| done]].
    intros x Hx1 Hx2. apply (Hn1 x Hx1). by apply list_elem_of_further.
Qed.

Lemma notify_owned n s :
  owned s -> known s n ->
  exists s', notify n s = Done tt s' /\ owned s' /\ apps s' = apps s.
Proof.
  intros Ho Hk. destruct n as [id|id]; cbn [notify].
  - destruct Hk as [app Happ]. exists (installed app s).
    split; [by apply OnApplicationInstalled_run |].
    split; [by apply installed_owned | done].
  - destruct (decide (id ∈ installed_ids s)) as [Hin|Hnin].
    + destruct (first_record s id _ (proj2 (proj2 (proj2 (proj1 Ho)))) Hin)
        as (l1 & p & o & l2 & Hia & Hl1 & Hn & Hp & Hid).
      exists (uninstalled l1 p o l2 s).
      split; [by apply OnApplicationUninstalled_present |].
      split; [by apply uninstalled_owned | done].
    + eexists. split.
      * apply OnApplicationUninstalled_absent; [apply Ho | done].
      * split; [exact Ho | done].
Qed.

(** X5.  Whatever install and uninstall notifications arrive, in whatever
    order and however often, as long as each install names an application
    the store can look up: the callbacks return normally, the vector keeps
    owning live objects without repetition, every uninstall callback left
    on the bus is bound to a live object at its own path, and the store is
    not touched. *)
Theorem notifications_keep_ownership ns : forall s,
  owned s -> Forall (known s) ns ->
  exists s', notify_all ns s = Done tt s' /\ owned s' /\ apps s' = apps s.
Proof.
  induction ns as [|n ns IH]; intros s Ho Hk.
  - by exists s.
  - apply Forall_cons in Hk as [Hn Hk].
    destruct (notify_owned n s Ho Hn) as (s1 & Hrun1 & Ho1 & Happs1).
    destruct (IH s1 Ho1) as (s' & Hrun & Ho' & Happs).
    + eapply Forall_impl; [exact Hk |]. intros [id|id]; cbn; [| done].
      by rewrite Happs1.
    + exists s'. split; [| split; [done | congruence]].
      cbn [notify_all]. unfold bind. by rewrite Hrun1.
Qed.

(** ** Round trip *)


(** X7.  When every identity occurs once in the collection, the uninstall
    notification for one of them removes it and only it: the identity is
    gone, every other identity is kept, the records left are live, and the
    collection is one shorter. *)
Theorem uninstall_notification_removes_identity id s :
  live s (installed_apps_ s) -> NoDup (installed_ids s) ->
  id ∈ installed_ids s ->
  exists s',
    OnApplicationUninstalled id s = Done tt s' /\
    (id ∉ installed_ids s') /\
    (forall x, x <> id -> x ∈ installed_ids s' <-> x ∈ installed_ids s) /\
    NoDup (installed_ids s') /\
    live s' (installed_apps_ s') /\
    S (length (installed_apps_ s')) = length (installed_apps_ s).
Proof.
  intros Hl Hnd Hin.
  destruct (first_record s id _ Hl Hin)
    as (l1 & p & o & l2 & Hs & Hl1 & Hid1 & Hp & Ho).
  assert (installed_ids s = ids_of s l1 ++ [id] ++ ids_of s l2) as Hall.
  { unfold installed_ids. rewrite Hs.
    change (p :: l2) with ([p] ++ l2). rewrite !ids_of_app. do 2 f_equal.
    unfold ids_of. cbn. rewrite Hp. cbn. by rewrite Ho. }
  rewrite Hall in Hnd. rewrite Hs in Hl.
  apply NoDup_app in Hnd as (Hnd1 & Hn1 & Hnd2).
  apply NoDup_app in Hnd2 as (_ & Hn2 & Hnd2).
  apply Forall_app in Hl as [_ Hl2]. apply Forall_cons in Hl2 as [_ Hl2].
  assert (id ∉ ids_of s l2) as Hid2.
  { apply Hn2. apply list_elem_of_here. }
  assert (p ∉ l1 ++ l2) as Hpn.
  { intros [Hx|Hx]%elem_of_app.
    - apply Hid1. rewrite <- Ho. by apply ids_of_live_elem with p.
    - apply Hid2. rewrite <- Ho. by apply ids_of_live_elem with p. }
  assert (installed_ids (uninstalled l1 p o l2 s)
          = ids_of s l1 ++ ids_of s l2) as Hids.
  { rewrite <- ids_of_app. unfold installed_ids, ids_of. fields.
    by apply ids_delete_other. }
  exists (uninstalled l1 p o l2 s).
  split; [by apply OnApplicationUninstalled_present |].
  split; [| split; [| split; [| split]]].
  - rewrite Hids. intros [Hx|Hx]%elem_of_app; done.
  - intros x Hne. rewrite Hids, Hall, !elem_of_app, list_elem_of_singleton.
    split.
    + intros [Hx|Hx]; [by left | by right; right].
    + intros [Hx|[Hx|Hx]]; [by left | done | by right].
  - rewrite Hids. apply NoDup_app. split; [done | split; [| done]].
    intros x Hx1 Hx2. apply (Hn1 x Hx1). apply elem_of_app. by right.
  - unfold live. fields. apply Forall_forall. intros q Hq.
    rewrite lookup_delete_ne by (intros ->; done).
    assert (Forall (fun q => is_Some (heap s !! q)) (l1 ++ l2)) as Hlive
      by (by apply Forall_app).
    rewrite Forall_forall in Hlive. by apply Hlive.
  - fields. rewrite Hs, !length_app. cbn. lia.
Qed.

(** ** Replies *)

Lemma responses_log evs s :
  responses (trace (log evs s)) = responses (trace s) + responses evs.
Proof. apply responses_app. Qed.

(** X8.  Install answers each call once.  Against a service that returns
    normally, sends no response of its own and leaves the collection's
    objects live, the handler either returns having sent exactly one
    response, or fails its [CHECK] having sent none. *)
Theorem install_handler_replies_once service method_call s :
  (forall file_path,
     PopString (arguments method_call) = Some file_path ->
     IsAbsolute file_path = true ->
     exists r s1,
       Install service file_path
         (log [EvServiceCall (CallInstall file_path)] s) = Done r s1 /\
       responses (trace s1) = responses (trace s) /\
       live s1 (installed_apps_ s1)) ->
  (exists s', OnInstall service method_call s = Done tt s' /\
              responses (trace s') = S (responses (trace s))) \/
  (exists s', OnInstall service method_call s = CheckFailed s' /\
              responses (trace s') = responses (trace s)).
Proof.
  intros Hsvc.
  destruct (PopString (arguments method_call)) as [file_path|] eqn:Hpop.
  - destruct (IsAbsolute file_path) eqn:Habs.
    + destruct (Hsvc file_path eq_refl Habs)
        as ([ok id] & s1 & Hrun & Hresp & Hl).
      destruct ok.
      * destruct (decide (id ∈ installed_ids s1)) as [Hin|Hnin].
        -- destruct (first_record s1 id _ Hl Hin)
             as (l1 & p & o & l2 & Hia & Hl1 & Hn & Hp & Ho).
           left. eexists. split.
           ++ by apply (OnInstall_found service method_call file_path s id
                          s1 l1 p o l2).
           ++ rewrite responses_log, Hresp.
              change (EvServiceReturn true :: ?l) with ([EvServiceReturn true] ++ l).
              rewrite !responses_app, responses_reads. cbn. lia.
        -- right. eexists. split.
           ++ by apply (OnInstall_lost service method_call file_path s id s1).
           ++ rewrite responses_log, Hresp.
              change (EvServiceReturn true :: ?l) with ([EvServiceReturn true] ++ l).
              rewrite !responses_app, responses_reads. cbn. lia.
      * left. eexists. split.
        -- by apply (OnInstall_failed service method_call file_path s id s1).
        -- rewrite responses_log, Hresp. cbn. lia.
    + left. eexists. split; [by apply OnInstall_relative with file_path |].
      rewrite responses_log. cbn. lia.
  - left. eexists. split.
    + unfold OnInstall. rewrite Hpop. reflexivity.
    + rewrite responses_log. cbn. lia.
Qed.

(** X9.  Uninstall outlives its object.  Against a service that runs the
    uninstall notification before it returns success, the handler, bound to
    the first record of its identity, returns normally with a success
    reply, although the object it was called for is destroyed, and erased
    from the collection, by the time the service returns. *)
Theorem uninstall_handler_survives_destruction
    service object o method_call l1 l2 s :
  (forall id s0,
     Uninstall service id s0 = (OnApplicationUninstalled id;; ret true) s0) ->
  installed_apps_ s = l1 ++ object :: l2 ->
  live s l1 -> app_id_ o ∉ ids_of s l1 -> heap s !! object = Some o ->
  let called :=
    log [EvRead object F_app_id; EvServiceCall (CallUninstall (app_id_ o))] s in
  let s' :=
    log [EvServiceReturn true; EvRun (Reply method_call [])]
      (uninstalled l1 object o l2 called) in
  OnUninstall service object method_call s = Done tt s' /\
  heap s' !! object = None /\
  installed_apps_ s' = l1 ++ l2.
Proof.
  intros Hsvc Hs Hl Hn Ho called s'. split; [| split].
  - apply OnUninstall_succeeded with o; [exact Ho |].
    rewrite Hsvc. unfold bind.
    rewrite (OnApplicationUninstalled_present (app_id_ o) l1 object o l2);
      done.
  - subst s' called. fields. apply lookup_delete_eq.
  - reflexivity.
Qed.

(** X10.  Install returns the path it announced.  Against a service that
    runs the install notification for [id] before it returns success with
    [id], for an identity the collection did not hold: one InterfacesAdded
    signal is sent before the service returns, and the reply to the call
    carries the same path, that of the new last record. *)
Theorem install_handler_returns_announced_path
    service method_call file_path id app s :
  (forall file_path s0,
     Install service file_path s0
     = (OnApplicationInstalled id;; ret (true, id)) s0) ->
  PopString (arguments method_call) = Some file_path ->
  IsAbsolute file_path = true ->
  apps s !! id = Some app -> ID app = id ->
  live s (installed_apps_ s) -> fresh s -> id ∉ installed_ids s ->
  let object := next_object s in
  let o := new_object app in
  exists s',
    OnInstall service method_call s = Done tt s' /\
    trace s'
    = trace s ++
      [EvServiceCall (CallInstall file_path);
       EvNew object;
       EvRead object F_path;
       EvExportMethod (path_ o) kInstalledApplicationDBusInterface "Uninstall";
       EvPushBack object;
       EvRead object F_path;
       EvRead object F_properties;
       EvSendSignal
         (mkSignal kDBusObjectManagerInterface "InterfacesAdded"
            [ArgObjectPath (path_ o); ArgProperties (properties_ o)]);
       EvServiceReturn true] ++
      reads F_app_id (installed_apps_ s ++ [object]) ++
      [EvRead object F_path;
       EvRun (Reply method_call [ArgObjectPath (path_ o)])] /\
    installed_apps_ s' = installed_apps_ s ++ [object] /\
    heap s' !! object = Some o.
Proof.
  intros Hsvc Hpop Habs Happ Hid Hl Hf Hnone object o.
  assert (heap s !! next_object s = None) as Hnx
    by (by apply fresh_lookup with (next_object s)).
  pose proof (live_not_fresh _ _ _ Hl Hnx) as Hnin.
  eexists. split; [| split; [| split]].
  - apply (OnInstall_found service method_call file_path s id
             (installed app (log [EvServiceCall (CallInstall file_path)] s))
             (installed_apps_ s) (next_object s) (new_object app) []);
      try done.
    + rewrite Hsvc. unfold bind.
      by rewrite (OnApplicationInstalled_run id app).
    + unfold live. fields. by apply live_insert.
    + unfold ids_of. fields. by rewrite ids_insert_fresh.
    + fields. apply lookup_insert_eq.
  - subst object o. unfold new_object, installed, created, created_events.
    open_state s. msimpl. rewrite <- !app_assoc. reflexivity.
  - reflexivity.
  - fields. apply lookup_insert_eq.
Qed.

End Properties.

(** * The scenarios of the spec, as instances of the theorems *)

#[local] Existing Instance scenario_impl.

(** Hypotheses over concrete states are decided by evaluation. *)
Ltac decided :=
  unfold live, fresh; apply (bool_decide_unpack _); vm_compute; exact I.

Lemma scenario_store_keyed : keyed_by_ID scenario_store.
Proof.
  intros id app Hin. unfold scenario_store in Hin.
  apply lookup_singleton_Some in Hin as [<- <-]. reflexivity.
Defined.

Lemma mirror_invariant_witness :
  keyed_by_ID scenario_store /\
  exists s,
    (InstalledApplicationsManager (impl := scenario_impl);;
     run (impl := scenario_impl) scenario_turns) (startup scenario_store)
    = Done tt s /\
    mirror s /\
    OnGetManagedObjects (mkMethodCall 6 []) s
    = Done tt (log (enumeration_reads (installed_apps_ s) ++
                    [EvRun (Reply (mkMethodCall 6 [])
                       [ArgManagedObjects
                          (managed_objects s (installed_apps_ s))])]) s) /\
    (managed_objects s (installed_apps_ s)).*1
    = GetInstalledPathForAppID (InstalledApplicationObjectImpl := scenario_impl)
        kInstalledManagerDBusPath <$> installed_ids s.
Proof.
  split; [exact scenario_store_keyed |].
  exact (mirror_invariant (impl := scenario_impl) scenario_store
           scenario_turns (mkMethodCall 6 []) scenario_store_keyed).
Defined.

(** C2 as the spec states it fails where the store rejects the uninstall of
    "app.a": the handler reads the object's identity a second time, after
    the service has returned, to build the error message. *)
Lemma uninstall_failure_reads_object_after_return :
  OnUninstall (impl := scenario_impl) (application_service_ None false) 0
    (mkMethodCall 3 []) scenario
  = Done tt
      (log [EvRead 0 F_app_id;
            EvServiceCall (CallUninstall "app.a");
            EvServiceReturn false;
            EvRead 0 F_app_id;
            EvRun (ErrorResponse (mkMethodCall 3 [])
                     "org.crosswalkproject.Installed.Application.Error"
                     "Error trying to uninstall application with id app.a")]
         scenario) /\
  no_read_after_return 0
    [EvRead 0 F_app_id;
     EvServiceCall (CallUninstall "app.a");
     EvServiceReturn false;
     EvRead 0 F_app_id;
     EvRun (ErrorResponse (mkMethodCall 3 [])
              "org.crosswalkproject.Installed.Application.Error"
              "Error trying to uninstall application with id app.a")]
  = false.
Proof. split; vm_compute; reflexivity. Qed.

Lemma uninstall_reads_object_again_only_on_failure_witness :
  heap scenario !! 0 = Some (new_object (impl := scenario_impl) app_a) /\
  Uninstall (application_service_ (impl := scenario_impl) None true) "app.a"
    (log [EvRead 0 F_app_id; EvServiceCall (CallUninstall "app.a")] scenario)
  = Done true scenario_uninstalled /\
  heap scenario_uninstalled !! 0 = None /\
  no_read_after_return 0
    (drop (length (trace scenario))
       (trace (log [EvServiceReturn true; EvRun (Reply (mkMethodCall 4 []) [])]
                 scenario_uninstalled))) = true /\
  OnUninstall (impl := scenario_impl) (application_service_ None true) 0
    (mkMethodCall 4 []) scenario
  = Done tt (log [EvServiceReturn true; EvRun (Reply (mkMethodCall 4 []) [])]
               scenario_uninstalled).
Proof.
  assert (heap scenario !! 0 = Some (new_object (impl := scenario_impl) app_a))
    as Ho by (vm_compute; reflexivity).
  assert (Uninstall (application_service_ (impl := scenario_impl) None true)
            (app_id_ (new_object (impl := scenario_impl) app_a))
            (log [EvRead 0 F_app_id;
                  EvServiceCall
                    (CallUninstall
                       (app_id_ (new_object (impl := scenario_impl) app_a)))]
               scenario)
          = Done true scenario_uninstalled)
    as Hsvc by (vm_compute; reflexivity).
  split; [exact Ho | split; [exact Hsvc |]].
  split; [vm_compute; reflexivity | split; [vm_compute; reflexivity |]].
  exact (proj1 (uninstall_reads_object_again_only_on_failure
                  (impl := scenario_impl) (application_service_ None true) 0
                  (new_object (impl := scenario_impl) app_a)
                  (mkMethodCall 4 []) scenario true scenario_uninstalled
                  Ho Hsvc) eq_refl).
Defined.

Lemma removal_notifies_unregisters_destroys_witness :
  live scenario (installed_apps_ scenario) /\
  "app.a" ∈ installed_ids scenario /\
  exists l1 object o l2,
    installed_apps_ scenario = l1 ++ object :: l2 /\
    ("app.a" ∉ ids_of scenario l1) /\
    heap scenario !! object = Some o /\ app_id_ o = "app.a" /\
    OnApplicationUninstalled "app.a" scenario
    = Done tt
        (log (reads F_app_id (l1 ++ [object]) ++
              [EvRead object F_path;
               EvRead object F_interfaces;
               EvSendSignal
                 (mkSignal kDBusObjectManagerInterface "InterfacesRemoved"
                    [ArgObjectPath (path_ o);
                     ArgArrayOfStrings (interfaces_ o)]);
               EvRead object F_path;
               EvUnregisterExportedObject (path_ o);
               EvErase object])
           (set_heap (delete object)
              (set_installed_apps (fun _ => l1 ++ l2)
                 (set_bus (delete (path_ o)) scenario)))).
Proof.
  assert (live scenario (installed_apps_ scenario)) as Hl by decided.
  assert ("app.a" ∈ installed_ids scenario) as Hin by decided.
  split; [exact Hl | split; [exact Hin |]].
  exact (removal_notifies_unregisters_destroys
           "app.a" scenario Hl Hin).
Defined.

Lemma addition_registers_then_notifies_witness :
  apps scenario_unnotified !! "app.b" = Some app_b /\
  OnApplicationInstalled (impl := scenario_impl) "app.b" scenario_unnotified
  = Done tt (installed (impl := scenario_impl) app_b scenario_unnotified).
Proof.
  assert (apps scenario_unnotified !! "app.b" = Some app_b) as Happ
    by (vm_compute; reflexivity).
  split; [exact Happ |].
  exact (addition_registers_then_notifies (impl := scenario_impl)
           "app.b" app_b scenario_unnotified Happ).
Defined.

Lemma install_success_replies_with_record_path_witness :
  Install (application_service_ (impl := scenario_impl) (Some app_b) true)
    "/abs/path/app-b.pkg"
    (log [EvServiceCall (CallInstall "/abs/path/app-b.pkg")] scenario)
  = Done (true, "app.b") scenario_installed /\
  (live scenario_installed (installed_apps_ scenario_installed) /\
   "app.b" ∈ installed_ids scenario_installed) /\
  (exists l1 object o l2,
     installed_apps_ scenario_installed = l1 ++ object :: l2 /\
     ("app.b" ∉ ids_of scenario_installed l1) /\
     heap scenario_installed !! object = Some o /\ app_id_ o = "app.b" /\
     OnInstall
       (application_service_ (Some app_b) true)
       (mkMethodCall 1 [ArgString "/abs/path/app-b.pkg"]) scenario
     = Done tt (log (EvServiceReturn true
                     :: reads F_app_id (l1 ++ [object]) ++
                     [EvRead object F_path;
                      EvRun (Reply
                               (mkMethodCall 1
                                  [ArgString "/abs/path/app-b.pkg"])
                               [ArgObjectPath (path_ o)])])
                  scenario_installed)) /\
  OnInstall forgetful_service
    (mkMethodCall 1 [ArgString "/abs/path/app-b.pkg"]) scenario
  = CheckFailed
      (log [EvServiceCall (CallInstall "/abs/path/app-b.pkg");
            EvServiceReturn true;
            EvRead 0 F_app_id] scenario).
Proof.
  assert (Install (application_service_ (impl := scenario_impl)
                     (Some app_b) true) "/abs/path/app-b.pkg"
            (log [EvServiceCall (CallInstall "/abs/path/app-b.pkg")] scenario)
          = Done (true, "app.b") scenario_installed)
    as Hsvc by (vm_compute; reflexivity).
  assert (live scenario (installed_apps_ scenario)) as Hl by decided.
  pose proof (install_success_replies_with_record_path
                (impl := scenario_impl)
                (application_service_ (Some app_b) true)
                (mkMethodCall 1 [ArgString "/abs/path/app-b.pkg"])
                "/abs/path/app-b.pkg" scenario "app.b" scenario_installed
                eq_refl eq_refl Hsvc) as (Hthere & Hfound & _).
  destruct (Hthere (Some app_b) true eq_refl Hl) as [Hl1 Hin].
  split; [exact Hsvc | split; [exact (conj Hl1 Hin) | split]].
  - exact (Hfound Hl1 Hin).
  - assert (Install forgetful_service "/abs/path/app-b.pkg"
              (log [EvServiceCall (CallInstall "/abs/path/app-b.pkg")]
                 scenario)
            = Done (true, "app.ghost")
                (log [EvServiceCall (CallInstall "/abs/path/app-b.pkg")]
                   scenario))
      as Hghost by reflexivity.
    pose proof (install_success_replies_with_record_path
                  (impl := scenario_impl) forgetful_service
                  (mkMethodCall 1 [ArgString "/abs/path/app-b.pkg"])
                  "/abs/path/app-b.pkg" scenario "app.ghost" _
                  eq_refl eq_refl Hghost) as (_ & _ & Hlost).
    rewrite Hlost; [vm_compute; reflexivity | decided | decided].
Defined.

Lemma install_requires_absolute_path_witness :
  PopString [ArgString "relative/path.pkg"] = Some "relative/path.pkg" /\
  IsAbsolute "relative/path.pkg" = false /\
  OnInstall (application_service_ (Some app_b) true)
    (mkMethodCall 2 [ArgString "relative/path.pkg"]) scenario
  = Done tt
      (log [EvRun (ErrorResponse
                     (mkMethodCall 2 [ArgString "relative/path.pkg"])
                     kInstalledManagerDBusError
                     "Path to install must be absolute.")] scenario).
Proof.
  split; [reflexivity | split; [reflexivity |]].
  exact (install_requires_absolute_path
           (application_service_ (Some app_b) true)
           (mkMethodCall 2 [ArgString "relative/path.pkg"])
           "relative/path.pkg" scenario eq_refl eq_refl).
Defined.

Lemma install_failure_creates_nothing_witness :
  service_Install (impl := scenario_impl) None "/abs/path/broken.pkg"
    (log [EvServiceCall (CallInstall "/abs/path/broken.pkg")] scenario)
  = Done (false, EmptyString)
      (log [EvServiceCall (CallInstall "/abs/path/broken.pkg")] scenario) /\
  OnInstall (application_service_ None true)
    (mkMethodCall 7 [ArgString "/abs/path/broken.pkg"]) scenario
  = Done tt
      (log [EvServiceCall (CallInstall "/abs/path/broken.pkg");
            EvServiceReturn false;
            EvRun (ErrorResponse
                     (mkMethodCall 7 [ArgString "/abs/path/broken.pkg"])
                     kInstalledManagerDBusError
                     ("Error installing application with path: "
                      +:+ "/abs/path/broken.pkg"))] scenario).
Proof.
  split; [reflexivity |].
  exact (install_failure_creates_nothing (impl := scenario_impl) None true
           (mkMethodCall 7 [ArgString "/abs/path/broken.pkg"])
           "/abs/path/broken.pkg" scenario EmptyString _
           eq_refl eq_refl eq_refl).
Defined.

Lemma uninstall_failure_keeps_object_witness :
  heap scenario !! 0 = Some (new_object (impl := scenario_impl) app_a) /\
  let s' :=
    log [EvRead 0 F_app_id;
         EvServiceCall (CallUninstall "app.a");
         EvServiceReturn false;
         EvRead 0 F_app_id;
         EvRun (ErrorResponse (mkMethodCall 3 [])
                  (kInstalledApplicationDBusError
                     (InstalledApplicationObjectImpl := scenario_impl))
                  ("Error trying to uninstall application with id "
                   +:+ "app.a"))] scenario in
  OnUninstall (impl := scenario_impl) (application_service_ None false) 0
    (mkMethodCall 3 []) scenario = Done tt s' /\
  forall enumerate,
    live scenario (installed_apps_ scenario) ->
    0 ∈ installed_apps_ scenario ->
    exists entries,
      OnGetManagedObjects enumerate s'
      = Done tt (log (enumeration_reads (installed_apps_ scenario) ++
                      [EvRun (Reply enumerate [ArgManagedObjects entries])])
                   s') /\
      (path_ (new_object (impl := scenario_impl) app_a),
       properties_ (new_object (impl := scenario_impl) app_a)) ∈ entries.
Proof.
  assert (heap scenario !! 0 = Some (new_object (impl := scenario_impl) app_a))
    as Ho by (vm_compute; reflexivity).
  split; [exact Ho |].
  exact (uninstall_failure_keeps_object (impl := scenario_impl) None false 0
           (new_object (impl := scenario_impl) app_a) (mkMethodCall 3 [])
           scenario _ Ho eq_refl).
Defined.

Lemma unknown_uninstall_is_a_no_op_witness :
  live scenario (installed_apps_ scenario) /\
  ("app.b" ∉ installed_ids scenario) /\
  OnApplicationUninstalled "app.b" scenario
  = Done tt
      (log (reads F_app_id (installed_apps_ scenario) ++
            [EvLogWarning "Notified about uninstallation of unknown app_id."])
         scenario).
Proof.
  assert (live scenario (installed_apps_ scenario)) as Hl by decided.
  assert ("app.b" ∉ installed_ids scenario) as Hid by decided.
  split; [exact Hl | split; [exact Hid |]].
  exact (unknown_uninstall_is_a_no_op "app.b"
           scenario Hl Hid).
Defined.

Lemma repeated_install_notification_duplicates_witness :
  apps scenario_unnotified !! "app.b" = Some app_b /\
  live scenario_unnotified (installed_apps_ scenario_unnotified) /\
  fresh scenario_unnotified /\
  let o := new_object (impl := scenario_impl) app_b in
  exists s2,
    (OnApplicationInstalled (impl := scenario_impl) "app.b";;
     OnApplicationInstalled (impl := scenario_impl) "app.b")
      scenario_unnotified = Done tt s2 /\
    installed_apps_ s2 = installed_apps_ scenario_unnotified ++ [1; 2] /\
    heap s2 !! 1 = Some o /\ heap s2 !! 2 = Some o /\
    app_id_ o = "app.b" /\
    installed_ids s2 = installed_ids scenario_unnotified ++ ["app.b"; "app.b"] /\
    ("app.b" ∉ installed_ids scenario_unnotified ->
     exists s3,
       OnApplicationUninstalled "app.b" s2
       = Done tt s3 /\
       installed_apps_ s3 = installed_apps_ scenario_unnotified ++ [2] /\
       heap s3 !! 1 = None /\ heap s3 !! 2 = Some o /\
       installed_ids s3 = installed_ids scenario_unnotified ++ ["app.b"]).
Proof.
  assert (apps scenario_unnotified !! "app.b" = Some app_b) as Happ
    by (vm_compute; reflexivity).
  assert (live scenario_unnotified (installed_apps_ scenario_unnotified))
    as Hl by decided.
  assert (fresh scenario_unnotified) as Hf by decided.
  split; [exact Happ | split; [exact Hl | split; [exact Hf |]]].
  exact (repeated_install_notification_duplicates (impl := scenario_impl)
           "app.b" app_b scenario_unnotified Happ eq_refl Hl Hf).
Defined.

(** ** Instances of the further properties *)

Lemma scenario_owned : owned scenario.
Proof.
  destruct (startup_consistent scenario_store scenario_store_keyed)
    as (s & Hrun & _ & Hsound & _).
  assert (s = scenario) as ->.
  { assert (InstalledApplicationsManager (startup scenario_store)
            = Done tt scenario) as Hs by (vm_compute; reflexivity).
    rewrite Hs in Hrun. by injection Hrun. }
  split; [exact Hsound | decided].
Defined.

Lemma install_rejects_unreadable_argument_witness :
  PopString [ArgObjectPath "/abs/path/app-b.pkg"] = None /\
  OnInstall (application_service_ (Some app_b) true)
    (mkMethodCall 8 [ArgObjectPath "/abs/path/app-b.pkg"]) scenario
  = Done tt
      (log [EvRun (ErrorResponse
                     (mkMethodCall 8 [ArgObjectPath "/abs/path/app-b.pkg"])
                     kInstalledManagerDBusError "Error parsing message.")]
         scenario).
Proof.
  split; [reflexivity |].
  exact (install_rejects_unreadable_argument
           (application_service_ (Some app_b) true)
           (mkMethodCall 8 [ArgObjectPath "/abs/path/app-b.pkg"])
           scenario eq_refl).
Defined.

Lemma enumeration_lists_every_record_witness :
  live scenario_installed (installed_apps_ scenario_installed) /\
  exists entries,
    OnGetManagedObjects (mkMethodCall 5 []) scenario_installed
    = Done tt (log (enumeration_reads (installed_apps_ scenario_installed) ++
                    [EvRun (Reply (mkMethodCall 5 [])
                              [ArgManagedObjects entries])])
                 scenario_installed) /\
    Forall2 (fun object entry =>
               exists o, heap scenario_installed !! object = Some o /\
                         entry = (path_ o, properties_ o))
            (installed_apps_ scenario_installed) entries.
Proof.
  assert (live scenario_installed (installed_apps_ scenario_installed))
    as Hl by decided.
  split; [exact Hl |].
  exact (enumeration_lists_every_record (mkMethodCall 5 [])
           scenario_installed Hl).
Defined.

Lemma enumeration_is_repeatable_witness :
  live scenario_installed (installed_apps_ scenario_installed) /\
  exists entries s1 s2,
    OnGetManagedObjects (mkMethodCall 5 []) scenario_installed = Done tt s1 /\
    OnGetManagedObjects (mkMethodCall 6 []) s1 = Done tt s2 /\
    last (trace s1)
    = Some (EvRun (Reply (mkMethodCall 5 []) [ArgManagedObjects entries])) /\
    last (trace s2)
    = Some (EvRun (Reply (mkMethodCall 6 []) [ArgManagedObjects entries])).
Proof.
  assert (live scenario_installed (installed_apps_ scenario_installed))
    as Hl by decided.
  split; [exact Hl |].
  exact (enumeration_is_repeatable (mkMethodCall 5 []) (mkMethodCall 6 [])
           scenario_installed Hl).
Defined.

Lemma notifications_keep_ownership_witness :
  owned scenario /\
  Forall (known scenario)
    [Installed "app.a"; Uninstalled "app.a"; Uninstalled "app.b";
     Uninstalled "app.a"; Uninstalled "app.a"] /\
  exists s',
    notify_all
      [Installed "app.a"; Uninstalled "app.a"; Uninstalled "app.b";
       Uninstalled "app.a"; Uninstalled "app.a"] scenario = Done tt s' /\
    owned s' /\ apps s' = apps scenario.
Proof.
  assert (Forall (known scenario)
            [Installed "app.a"; Uninstalled "app.a"; Uninstalled "app.b";
             Uninstalled "app.a"; Uninstalled "app.a"]) as Hk.
  { repeat constructor. by exists app_a. }
  split; [exact scenario_owned | split; [exact Hk |]].
  exact (notifications_keep_ownership _ scenario scenario_owned Hk).
Defined.


Lemma uninstall_notification_removes_identity_witness :
  live scenario_installed (installed_apps_ scenario_installed) /\
  NoDup (installed_ids scenario_installed) /\
  "app.a" ∈ installed_ids scenario_installed /\
  exists s',
    OnApplicationUninstalled "app.a" scenario_installed = Done tt s' /\
    ("app.a" ∉ installed_ids s') /\
    (forall x, x <> "app.a" ->
               x ∈ installed_ids s' <-> x ∈ installed_ids scenario_installed) /\
    NoDup (installed_ids s') /\
    live s' (installed_apps_ s') /\
    S (length (installed_apps_ s'))
    = length (installed_apps_ scenario_installed).
Proof.
  assert (live scenario_installed (installed_apps_ scenario_installed))
    as Hl by decided.
  assert (NoDup (installed_ids scenario_installed)) as Hnd by decided.
  assert ("app.a" ∈ installed_ids scenario_installed) as Hin by decided.
  split; [exact Hl | split; [exact Hnd | split; [exact Hin |]]].
  exact (uninstall_notification_removes_identity "app.a" scenario_installed
           Hl Hnd Hin).
Defined.

Lemma install_handler_replies_once_witness :
  (exists s',
     OnInstall (application_service_ (Some app_b) true)
       (mkMethodCall 1 [ArgString "/abs/path/app-b.pkg"]) scenario
     = Done tt s' /\
     responses (trace s') = S (responses (trace scenario))) \/
  (exists s',
     OnInstall (application_service_ (Some app_b) true)
       (mkMethodCall 1 [ArgString "/abs/path/app-b.pkg"]) scenario
     = CheckFailed s' /\
     responses (trace s') = responses (trace scenario)).
Proof.
  apply (install_handler_replies_once
           (application_service_ (Some app_b) true)
           (mkMethodCall 1 [ArgString "/abs/path/app-b.pkg"]) scenario).
  intros file_path Hpop _. injection Hpop as <-.
  exists (true, "app.b"), scenario_installed.
  split; [vm_compute; reflexivity | split; [vm_compute; reflexivity |]].
  decided.
Defined.

Lemma uninstall_handler_survives_destruction_witness :
  installed_apps_ scenario = [] ++ 0 :: [] /\
  heap scenario !! 0 = Some (new_object app_a) /\
  let called :=
    log [EvRead 0 F_app_id; EvServiceCall (CallUninstall "app.a")] scenario in
  let s' :=
    log [EvServiceReturn true; EvRun (Reply (mkMethodCall 4 []) [])]
      (uninstalled [] 0 (new_object app_a) [] called) in
  OnUninstall (notifying_service "app.a") 0 (mkMethodCall 4 []) scenario
  = Done tt s' /\
  heap s' !! 0 = None /\
  installed_apps_ s' = [] ++ [].
Proof.
  assert (installed_apps_ scenario = [] ++ 0 :: []) as Hia by reflexivity.
  assert (heap scenario !! 0 = Some (new_object app_a)) as Ho
    by (vm_compute; reflexivity).
  split; [exact Hia | split; [exact Ho |]].
  apply (uninstall_handler_survives_destruction (notifying_service "app.a")
           0 (new_object app_a) (mkMethodCall 4 []) [] [] scenario).
  - intros id s0. reflexivity.
  - exact Hia.
  - constructor.
  - apply not_elem_of_nil.
  - exact Ho.
Defined.

Lemma install_handler_returns_announced_path_witness :
  apps scenario_unnotified !! "app.b" = Some app_b /\
  live scenario_unnotified (installed_apps_ scenario_unnotified) /\
  fresh scenario_unnotified /\
  ("app.b" ∉ installed_ids scenario_unnotified) /\
  exists s',
    OnInstall (notifying_service "app.b")
      (mkMethodCall 1 [ArgString "/abs/path/app-b.pkg"]) scenario_unnotified
    = Done tt s' /\
    trace s'
    = trace scenario_unnotified ++
      [EvServiceCall (CallInstall "/abs/path/app-b.pkg");
       EvNew 1;
       EvRead 1 F_path;
       EvExportMethod "/installed/app_b" kScenarioInterface "Uninstall";
       EvPushBack 1;
       EvRead 1 F_path;
       EvRead 1 F_properties;
       EvSendSignal
         (mkSignal kDBusObjectManagerInterface "InterfacesAdded"
            [ArgObjectPath "/installed/app_b";
             ArgProperties (properties_ (new_object app_b))]);
       EvServiceReturn true] ++
      reads F_app_id (installed_apps_ scenario_unnotified ++ [1]) ++
      [EvRead 1 F_path;
       EvRun (Reply (mkMethodCall 1 [ArgString "/abs/path/app-b.pkg"])
                [ArgObjectPath "/installed/app_b"])] /\
    installed_apps_ s' = installed_apps_ scenario_unnotified ++ [1] /\
    heap s' !! 1 = Some (new_object app_b).
Proof.
  assert (apps scenario_unnotified !! "app.b" = Some app_b) as Happ
    by (vm_compute; reflexivity).
  assert (live scenario_unnotified (installed_apps_ scenario_unnotified))
    as Hl by decided.
  assert (fresh scenario_unnotified) as Hf by decided.
  assert ("app.b" ∉ installed_ids scenario_unnotified) as Hn by decided.
  split; [exact Happ | split; [exact Hl | split; [exact Hf |]]].
  split; [exact Hn |].
  exact (install_handler_returns_announced_path (notifying_service "app.b")
           (mkMethodCall 1 [ArgString "/abs/path/app-b.pkg"])
           "/abs/path/app-b.pkg" "app.b" app_b scenario_unnotified
           (fun _ _ => eq_refl) eq_refl eq_refl Happ eq_refl Hl Hf Hn).
Defined.
